(** * flightsim: the [run] command of cmd/run.go

    A shallow embedding of the execution orchestrator of the network flight
    simulator: the catalog [allsimualtors], the selector [selectSimulators],
    the command body [RunE] of [newRunCommand] and the orchestrator [run].

    Output, sleeps and the calls made to the outside (the simulators, the
    interface lookup) are recorded as a trace of events; the memory that holds
    the [[]simulatorInfo] arrays is an explicit heap, so that the writes of the
    fast mode have an address. *)

From stdpp Require Import base list strings.
From Stdlib Require Import ZArith Ascii Lia.

Local Open Scope string_scope.
Local Open Scope Z_scope.
Local Open Scope list_scope.

(** ** Go strings and the library functions the command calls *)

Module GoStrings.

(** [len(s)] *)
Definition len (s : string) : Z := Z.of_nat (String.length s).

(** [s[i]], for an index in range. *)
Definition byte_at (s : string) (i : Z) : option ascii :=
  if i <? 0 then None else String.get (Z.to_nat i) s.

(** [s[a:b]] *)
Definition sub (s : string) (a b : Z) : string :=
  String.substring (Z.to_nat a) (Z.to_nat (b - a)) s.

(** [s[a:]] *)
Definition from (s : string) (a : Z) : string := sub s a (len s).

(** [bytealg.IndexByteString]: index of the first [c] in [s], or -1. *)
Fixpoint IndexByteString (s : string) (c : ascii) : Z :=
  match s with
  | EmptyString => -1
  | String x s' =>
      if Ascii.eqb x c then 0
      else let r := IndexByteString s' c in
           if r <? 0 then -1 else r + 1
  end.

(** [bytealg.LastIndexByteString]: index of the last [c] in [s], or -1. *)
Fixpoint LastIndexByteString (s : string) (c : ascii) : Z :=
  match s with
  | EmptyString => -1
  | String x s' =>
      let r := LastIndexByteString s' c in
      if 0 <=? r then r + 1
      else if Ascii.eqb x c then 0 else -1
  end.

(** The byte [c] occurs in [s]. *)
Fixpoint has_byte (s : string) (c : ascii) : bool :=
  match s with
  | EmptyString => false
  | String x s' => Ascii.eqb x c || has_byte s' c
  end.

(** A string without colon or square bracket: a host name, an IPv4 address
    or a port. *)
Definition plain (s : string) : Prop :=
  has_byte s ":" = false /\ has_byte s "[" = false /\ has_byte s "]" = false.

End GoStrings.

Module GoNet.
Import GoStrings.

Definition missingPort : string := "missing port in address".
Definition tooManyColons : string := "too many colons in address".

(** The outcome of [net.SplitHostPort]: [(host, port)] with a nil error, or
    the reason of the [*AddrError] (host and port are then empty). *)
Definition split_result : Type := (string * string) + string.

Definition addrErr (why : string) : split_result := inr why.

(** The tail of [net.SplitHostPort], after [host], [j] and [k] are set. *)
Definition SplitHostPort_tail (hostport host : string) (i j k : Z)
  : split_result :=
  if 0 <=? IndexByteString (from hostport j) "["
  then addrErr "unexpected '[' in address"
  else if 0 <=? IndexByteString (from hostport k) "]"
  then addrErr "unexpected ']' in address"
  else inl (host, from hostport (i + 1)).

(** [net.SplitHostPort] of the Go standard library (net/ipsock.go). *)
Definition SplitHostPort (hostport : string) : split_result :=
  (* The port starts after the last colon. *)
  let i := LastIndexByteString hostport ":" in
  if i <? 0 then addrErr missingPort
  else
    match byte_at hostport 0 with
    | Some "["%char =>
        (* Expect the first ']' just before the last ':'. *)
        let end_ := IndexByteString hostport "]" in
        if end_ <? 0 then addrErr "missing ']' in address"
        else if end_ + 1 =? len hostport then addrErr missingPort
        else if end_ + 1 =? i then
          SplitHostPort_tail hostport (sub hostport 1 end_) i 1 (end_ + 1)
        else
          match byte_at hostport (end_ + 1) with
          | Some ":"%char => addrErr tooManyColons
          | _ => addrErr missingPort
          end
    | _ =>
        let host := sub hostport 0 i in
        if 0 <=? IndexByteString host ":" then addrErr tooManyColons
        else SplitHostPort_tail hostport host i 0 0
    end.

End GoNet.

Import GoStrings GoNet.

(** ** Time, addresses and the observable events *)

(** [time.Duration]: a count of nanoseconds. *)
Definition Duration : Type := Z.
Definition Millisecond : Duration := 1000000.
Definition Second : Duration := 1000 * Millisecond.

(** [net.IP] is a byte slice. *)
Definition IP : Type := list Byte.byte.

(** What a run does that can be seen from outside, in the order it happens.
    [printMsg] writes one line per message; the time stamp that starts the
    line is not kept. The two simulator methods are recorded under the
    [name] of the catalog entry that owns the simulator. *)
Inductive event : Type :=
| EWelcome (ip : IP)                            (* printWelcome(extIP.String()) *)
| EHeader                                       (* printHeader() *)
| EMsg (module msg : string)                    (* one line of printMsg *)
| ESleep (d : Duration)                         (* time.Sleep(d) *)
| EExternalIP (ifaceName : string)              (* utils.ExternalIP(ifaceName) *)
| EHosts (module : string)                      (* s.s.Hosts() *)
| ESimulate (module : string) (extIP : IP) (host : string)  (* s.s.Simulate(extIP, host) *)
| EGoodbay.                                     (* printGoodbay() *)

(** Modelled from the spec: [utils.StringsContains] is not under src/; the
    selector keeps the entries "whose name is in the requested set", so the
    helper is membership of [s] in [a], searched from the front. *)
Fixpoint StringsContains (a : list string) (s : string) : bool :=
  match a with
  | [] => false
  | x :: a' => if String.eqb x s then true else StringsContains a' s
  end.

(** The interface [simulator.Simulator], over the world outside the process
    (the network, the clock, the random source) that its methods read and
    change. [Hosts] returns the Go pair [(hosts, err)], [err] being the
    error's message when it is not nil; whatever [Simulate] returns is
    dropped by the caller. *)
Record Simulator (World : Type) : Type := {
  Hosts : World -> (list string * option string) * World;
  Simulate : IP -> string -> World -> World
}.
Arguments Hosts {World} _ _.
Arguments Simulate {World} _ _ _ _.

(** The struct [simulatorInfo]. [infoHeaders] is a slice too, but nothing in
    the command writes into it: it is kept as the list of its elements. *)
Record simulatorInfo (World : Type) : Type := {
  name : string;
  infoHeaders : list string;
  infoRun : string;
  s : Simulator World;
  interval : Duration
}.
Arguments name {World} _.
Arguments infoHeaders {World} _.
Arguments infoRun {World} _.
Arguments s {World} _.
Arguments interval {World} _.

(** ** Reading a trace *)

Global Instance byte_eq_dec : EqDecision Byte.byte := Byte.byte_eq_dec.

Global Instance event_eq_dec : EqDecision event.
Proof. unfold Duration, IP. solve_decision. Defined.

Definition is_msg (ev : event) : bool :=
  match ev with EMsg _ _ => true | _ => false end.

Definition is_simulate (ev : event) : bool :=
  match ev with ESimulate _ _ _ => true | _ => false end.

(** The durations of the sleeps of a trace, in order. *)
Fixpoint sleeps (t : list event) : list Duration :=
  match t with
  | [] => []
  | ESleep d :: t' => d :: sleeps t'
  | _ :: t' => sleeps t'
  end.

(** Some [a] of the trace comes before some [b] of it. *)
Fixpoint occurs_before (a b : event) (t : list event) : bool :=
  match t with
  | [] => false
  | ev :: t' =>
      (bool_decide (ev = a) && bool_decide (b ∈ t')) || occurs_before a b t'
  end.

(** The calls a trace makes to the outside. *)
Definition is_call (ev : event) : bool :=
  match ev with
  | EHosts _ | ESimulate _ _ _ | EExternalIP _ => true
  | _ => false
  end.

Definition is_hosts (ev : event) : bool :=
  match ev with EHosts _ => true | _ => false end.

(** An event with the duration of its sleep forgotten. *)
Definition erase_sleep (ev : event) : event :=
  match ev with
  | ESleep _ => ESleep 0
  | _ => ev
  end.

(** The elements of [l] that differ from the element before them, [prev]
    standing before the first. *)
Fixpoint collapse (prev : string) (l : list string) : list string :=
  match l with
  | [] => []
  | x :: l' => (if String.eqb prev x then [] else [x]) ++ collapse x l'
  end.

(** ** Stand-ins for the outside, to run the model *)

Module Demo.

(** The world of the stand-ins: the number of calls served so far, a sleep
    that lasts being counted as one. *)
Definition World : Type := nat.

(** [%s] replaced by the argument, once. *)
Fixpoint Sprintf (format arg : string) : string :=
  match format with
  | String "%" (String "s" rest) => arg +:+ rest
  | String c rest => String c (Sprintf rest arg)
  | EmptyString => EmptyString
  end.

Definition RedString (msg : string) : string := msg.

Definition addr10 : IP := [Byte.x0a; Byte.x00; Byte.x00; Byte.x01].

Definition ExternalIP (ifaceName : string) (w : World) : IP + string :=
  if String.eqb ifaceName "nosuch0" then inr "no such network interface"
  else inl addr10.

(** A sleep that lasts counts for one call; a sleep of zero for none. *)
Definition elapse (d : Duration) (w : World) : World :=
  if d =? 0 then w else S w.

(** A simulator that lists [hosts] with the error [err]. *)
Definition sim (hosts : list string) (err : option string) : Simulator World :=
  {| Hosts := fun w => ((hosts, err), S w);
     Simulate := fun _ _ w => S w |}.

Definition c2dns : Simulator World := sim ["evil.example:53"; "bad.example"] None.
Definition dga : Simulator World := sim [] (Some "no seed").
Definition scan : Simulator World := sim ["a:80"; "a:443"; "b:22"] None.
Definition tunnel : Simulator World := sim ["t1.example"; "t2.example"] None.

Definition entry (n : string) (x : Simulator World) : simulatorInfo World :=
  {| name := n; infoHeaders := ["Preparing"]; infoRun := "Resolving %s";
     s := x; interval := 500 * Millisecond |}.

End Demo.

Section Orchestrator.

(** Everything outside the process that the simulators and the interface
    lookup read or change: the network, the clock, the random source. *)
Variable World : Type.

(** [fmt.Sprintf(format, arg)] with one string argument, and
    [color.RedString]: library functions whose result is only printed. *)
Variable Sprintf : string -> string -> string.
Variable RedString : string -> string.

(** [utils.ExternalIP(ifaceName)]: an address, or an error (its message). *)
Variable ExternalIP : string -> World -> IP + string.

(** What the world becomes while the process sleeps for [d]: the clock moves
    on, and with it whatever outside the process depends on the time. *)
Variable elapse : Duration -> World -> World.

(** The four simulators that package [simulator] constructs. *)
Variables NewC2DNS NewDGA NewPortScan NewTunnel : Simulator World.

Local Abbreviation simulatorInfo := (simulatorInfo World).

(** The composite literal that initialises [allsimualtors]. *)
Definition catalog : list simulatorInfo :=
  [ {| name := "c2-dns";
       infoHeaders := ["Preparing random sample of current C2 domains"];
       infoRun := "Resolving %s";
       s := NewC2DNS;
       interval := 500 * Millisecond |};
    {| name := "dga";
       infoHeaders := ["Generating list of DGA domains"];
       infoRun := "Resolving %s";
       s := NewDGA;
       interval := 500 * Millisecond |};
    {| name := "scan";
       infoHeaders := ["Preparing random sample of RFC 1918 destinations";
                       "Preparing random sample of common TCP destination ports"];
       infoRun := "Port scanning %s";
       s := NewPortScan;
       interval := 0 |};
    {| name := "tunnel";
       infoHeaders := ["Preparing DNS tunnel hostnames"];
       infoRun := "Resolving %s";
       s := NewTunnel;
       interval := 500 * Millisecond |} ].

(** ** Memory: arrays of [simulatorInfo] and the slices that point at them *)

Local Abbreviation addr := nat.

(** A slice header. [array = None] is the nil slice. *)
Record slice : Type := Slice {
  array : option addr;
  slen : nat;
  scap : nat
}.

Definition nil_slice : slice := Slice None 0 0.

(** The heap: the array at address [a] is the [a]-th element. An array is
    kept up to its last cell that was written; its capacity lives in the
    headers of the slices that point at it. *)
Local Abbreviation heap := (list (list simulatorInfo)).

Definition load (h : heap) (a : addr) : list simulatorInfo :=
  default [] (h !! a).

(** The elements a slice shows: the first [slen] cells of its array. *)
Definition elems (h : heap) (sl : slice) : list simulatorInfo :=
  match array sl with
  | Some a => take (slen sl) (load h a)
  | None => []
  end.

(** The package variable [allsimualtors]: a slice over the array at address
    0, which holds the four entries of the literal. *)
Definition allsimualtors : slice := Slice (Some 0%nat) 4 4.

(** The state of the process: the heap, the variable [simulatorNames] that
    the closure [RunE] captures, and the world outside. *)
Record state : Type := State {
  mem : heap;
  simulatorNames : list string;
  world : World
}.

Definition init (w : World) : state :=
  {| mem := [catalog];
     simulatorNames := ["c2-dns"; "dga"; "scan"; "tunnel"];
     world := w |}.

(** ** The monad of the command: state, and a trace that only grows *)

Record res (A : Type) : Type := Res {
  val : A;
  out : list event;
  post : state
}.
Arguments Res {A} _ _ _.
Arguments val {A} _.
Arguments out {A} _.
Arguments post {A} _.

Definition M (A : Type) : Type := state -> res A.

Definition ret {A : Type} (a : A) : M A := fun st => Res a [] st.

Definition bind {A B : Type} (m : M A) (k : A -> M B) : M B := fun st =>
  let r1 := m st in
  let r2 := k (val r1) (post r1) in
  Res (val r2) (out r1 ++ out r2) (post r2).

Notation "x <- m ;; k" := (bind m (fun x => k))
  (at level 100, m at next level, right associativity).
Notation "m ;;; k" := (bind m (fun _ => k))
  (at level 100, right associativity).

Definition emit (es : list event) : M unit := fun st => Res tt es st.

Fixpoint forM_ {A : Type} (l : list A) (body : A -> M unit) : M unit :=
  match l with
  | [] => ret tt
  | x :: l' => body x ;;; forM_ l' body
  end.

Definition with_mem (st : state) (h : heap) : state :=
  {| mem := h; simulatorNames := simulatorNames st; world := world st |}.

Definition with_world (st : state) (w : World) : state :=
  {| mem := mem st; simulatorNames := simulatorNames st; world := w |}.

(** [for _, s := range sl]: the elements of [sl], each copied out of the
    array as a value. No loop of the command writes the array it ranges
    over, so the elements are read once, before the loop. *)
Definition range (sl : slice) : M (list simulatorInfo) := fun st =>
  Res (elems (mem st) sl) [] st.

(** The capacity of the array that [append] allocates when the old one is
    full: the runtime doubles a small slice and starts from one cell. *)
Definition growcap (c : nat) : nat :=
  match c with
  | O => 1
  | _ => 2 * c
  end.

(** [append(sl, x)]: written in place in the array of [sl] when the capacity
    allows, else to a new array that receives a copy of the elements. *)
Definition append (sl : slice) (x : simulatorInfo) : M slice := fun st =>
  let h := mem st in
  let grown :=
    Res (Slice (Some (length h)) (S (slen sl)) (growcap (scap sl))) []
        (with_mem st (h ++ [elems h sl ++ [x]])) in
  match array sl with
  | Some a =>
      if Nat.ltb (slen sl) (scap sl) then
        let arr := load h a in
        Res (Slice (Some a) (S (slen sl)) (scap sl)) []
            (with_mem st
               (<[a := take (slen sl) arr ++ x :: drop (S (slen sl)) arr]> h))
      else grown
  | None => grown
  end.

Definition set_interval (d : Duration) (e : simulatorInfo) : simulatorInfo :=
  {| name := name e; infoHeaders := infoHeaders e; infoRun := infoRun e;
     s := s e; interval := d |}.

(** [sl[i].interval = d], for an index [i] below [slen sl], the only indices
    that [for i := range sl] produces (Go panics on the others). *)
Definition store_interval (sl : slice) (i : nat) (d : Duration) : M unit :=
  fun st =>
    match array sl with
    | Some a =>
        Res tt []
            (with_mem st (<[a := alter (set_interval d) i (load (mem st) a)]> (mem st)))
    | None => Res tt [] st
    end.

(** ** Output and the calls to the outside *)

(** [printMsg(module, msg...)] *)
Definition printMsg (module : string) (msg : list string) : M unit :=
  emit (map (EMsg module) msg).

(** [time.Sleep(d)]: the process waits, and the world moves on meanwhile. *)
Definition Sleep (d : Duration) : M unit := fun st =>
  Res tt [ESleep d] (with_world st (elapse d (world st))).

(** [e.s.Hosts()] *)
Definition call_Hosts (e : simulatorInfo) : M (list string * option string) :=
  fun st =>
    let r := Hosts (s e) (world st) in
    Res (fst r) [EHosts (name e)] (with_world st (snd r)).

(** [e.s.Simulate(extIP, host)] *)
Definition call_Simulate (e : simulatorInfo) (extIP : IP) (host : string)
  : M unit :=
  fun st =>
    Res tt [ESimulate (name e) extIP host]
        (with_world st (Simulate (s e) extIP host (world st))).

(** [utils.ExternalIP(ifaceName)] *)
Definition call_ExternalIP (ifaceName : string) : M (IP + string) := fun st =>
  Res (ExternalIP ifaceName (world st)) [EExternalIP ifaceName] st.

(** ** The selector *)

(** The body of the loop of [selectSimulators], for the entry [e]. *)
Definition select_step (names : list string) (simulators : slice)
  (e : simulatorInfo) : M slice :=
  if StringsContains names (name e) then append simulators e
  else ret simulators.

Fixpoint select_loop (names : list string) (l : list simulatorInfo)
  (simulators : slice) : M slice :=
  match l with
  | [] => ret simulators
  | e :: l' =>
      simulators' <- select_step names simulators e ;;
      select_loop names l' simulators'
  end.

Definition selectSimulators (names : list string) : M slice :=
  l <- range allsimualtors ;;
  select_loop names l nil_slice.

(** ** The orchestrator *)

(** The display hostname of a target: [net.SplitHostPort] and its fallback. *)
Definition hostname_of (host : string) : string :=
  match SplitHostPort host with
  | inl (hostname, _) => hostname
  | inr _ => host
  end.

(** One turn of the loop over [hosts]; the result is the new [prevHostname]. *)
Definition host_step (e : simulatorInfo) (extIP : IP) (prevHostname host : string)
  : M string :=
  let hostname := hostname_of host in
  (* only print hostname when it has changed *)
  (if String.eqb prevHostname hostname then ret tt
   else printMsg (name e) [Sprintf (infoRun e) hostname]) ;;;
  call_Simulate e extIP host ;;;
  Sleep (interval e) ;;;
  ret hostname.

Fixpoint host_loop (e : simulatorInfo) (extIP : IP) (prevHostname : string)
  (hosts : list string) : M unit :=
  match hosts with
  | [] => ret tt
  | host :: hosts' =>
      prevHostname' <- host_step e extIP prevHostname host ;;
      host_loop e extIP prevHostname' hosts'
  end.

(** The body of the loop of [run], for the entry [e]; [gap] is the
    parameter [interval] of [run]. *)
Definition run_entry (extIP : IP) (gap : Duration) (e : simulatorInfo)
  : M unit :=
  printMsg (name e) ["Starting"] ;;;
  printMsg (name e) (infoHeaders e) ;;;
  Sleep gap ;;;
  r <- call_Hosts e ;;
  (match snd r with
   | Some err => printMsg (name e) [RedString "failed " +:+ err]
   | None => ret tt
   end) ;;;
  host_loop e extIP EmptyString (fst r) ;;;
  printMsg (name e) ["Finished"].

(** [run(simulators, extIP, interval)]; the result is the error, always nil. *)
Definition run (simulators : slice) (extIP : IP) (gap : Duration)
  : M (option string) :=
  emit [EWelcome extIP] ;;;
  emit [EHeader] ;;;
  l <- range simulators ;;
  forM_ l (run_entry extIP gap) ;;;
  emit [EGoodbay] ;;;
  ret None.

(** ** The command *)

(** The first loop of [RunE]: the error for the first argument that is not
    among [names]. *)
Fixpoint check_args (names args : list string) : option string :=
  match args with
  | [] => None
  | arg :: args' =>
      if negb (StringsContains names arg)
      then Some (Sprintf "simulator %s not recognized" arg)
      else check_args names args'
  end.

Definition get_simulatorNames : M (list string) := fun st =>
  Res (simulatorNames st) [] st.

Definition set_simulatorNames (names : list string) : M unit := fun st =>
  Res tt [] {| mem := mem st; simulatorNames := names; world := world st |}.

(** The loop [for i := range simulators { simulators[i].interval = 0 }]. *)
Definition zero_intervals (simulators : slice) : M unit :=
  forM_ (seq 0 (slen simulators)) (fun i => store_interval simulators i 0).

(** The function [RunE] of the command that [newRunCommand] builds, with the
    flags [fast] and [ifaceName] it reads; the result is the error. *)
Definition RunE (fast : bool) (ifaceName : string) (args : list string)
  : M (option string) :=
  names0 <- get_simulatorNames ;;
  match check_args names0 args with
  | Some err => ret (Some err)
  | None =>
      (if Nat.ltb 0 (length args) then set_simulatorNames args else ret tt) ;;;
      r <- call_ExternalIP ifaceName ;;
      match r with
      | inr err => ret (Some err)
      | inl extIP =>
          names <- get_simulatorNames ;;
          simulators <- selectSimulators names ;;
          interval <- (if fast then zero_intervals simulators ;;; ret 0
                       else ret (2 * Second)) ;;
          run simulators extIP interval ;;;
          ret None
      end
  end.

(** ** Vocabulary of the statements *)

(** The line that announces progress on [hostname]. *)
Definition announcement (e : simulatorInfo) (hostname : string) : event :=
  EMsg (name e) (Sprintf (infoRun e) hostname).

(** The display hostname that [prevHostname] holds when the [i]-th target of
    [hosts] is reached, [prev] being its value before the loop. *)
Definition prev_hostname (prev : string) (hosts : list string) (i : nat)
  : string :=
  match i with
  | O => prev
  | S j => from_option hostname_of EmptyString (hosts !! j)
  end.

(** The state [st] after a sleep of [d]: the state in which an entry that is
    started in [st] asks for its targets, [d] being the pause of the run. *)
Definition slept (d : Duration) (st : state) : state :=
  with_world st (elapse d (world st)).

(** What [e.s.Hosts()] returns in the state [st]. *)
Definition hosts_of (e : simulatorInfo) (st : state)
  : list string * option string :=
  fst (Hosts (s e) (world st)).

(** [st'] has the memory and the [simulatorNames] of [st]. *)
Definition same_store (st st' : state) : Prop :=
  mem st' = mem st /\ simulatorNames st' = simulatorNames st.

(** The array of the catalog is where the process put it, with its four
    entries. *)
Definition catalog_in_place (h : heap) : Prop := h !! 0%nat = Some catalog.

(** A slice that [append] built from nil: nil, or the whole of an array of
    the heap that is not the array of the catalog. *)
Definition own_slice (h : heap) (sl : slice) : Prop :=
  match array sl with
  | None => slen sl = 0%nat
  | Some a => a <> 0%nat /\ (a < length h)%nat /\ slen sl = length (load h a)
  end.

(** A slice that is nil or points at an array allocated at address [n] or
    later. *)
Definition fresh_slice (n : nat) (sl : slice) : Prop :=
  match array sl with
  | Some a => (n <= a)%nat
  | None => True
  end.

(** A simulator that does not tell apart two worlds that [R] relates, in
    what it lists and in what it does to them. With [R] relating the worlds
    that differ by the time that has passed, this is a simulator that does
    not depend on the time at which it is called. *)
Definition blind (R : World -> World -> Prop) (x : Simulator World) : Prop :=
  forall w1 w2 : World, R w1 w2 ->
    fst (Hosts x w1) = fst (Hosts x w2)
    /\ R (snd (Hosts x w1)) (snd (Hosts x w2))
    /\ forall (extIP : IP) (host : string),
         R (Simulate x extIP host w1) (Simulate x extIP host w2).

(** A step that prints nothing and touches neither the world nor
    [simulatorNames]. *)
Definition quiet {A : Type} (st : state) (r : res A) : Prop :=
  out r = [] /\ world (post r) = world st
  /\ simulatorNames (post r) = simulatorNames st.

(** The names that [RunE] hands to the selector when it starts from [init]:
    the arguments, or the names [simulatorNames] starts with when there is
    no argument. *)
Definition requested (args : list string) : list string :=
  match args with
  | [] => ["c2-dns"; "dga"; "scan"; "tunnel"]
  | _ :: _ => args
  end.

(** The entries of the catalog whose name is among [names], in the order of
    the catalog; in fast mode, with their interval set to zero. *)
Definition selection (fast : bool) (names : list string) : list simulatorInfo :=
  let l := filter (fun e => StringsContains names (name e)) catalog in
  if fast then map (set_interval 0) l else l.

(** The pause that [RunE] hands to [run]. *)
Definition gap_of (fast : bool) : Duration :=
  if fast then 0 else 2 * Second.

(** The entries of [l], run one after the other as the loop of [run] does. *)
Definition run_entries (extIP : IP) (gap : Duration) (l : list simulatorInfo)
  : M unit :=
  forM_ l (run_entry extIP gap).

(** The lines of the failure that [run] prints when [Hosts] returns [err]. *)
Definition failure_lines (e : simulatorInfo) (err : option string)
  : list event :=
  match err with
  | Some msg => [EMsg (name e) (RedString "failed " +:+ msg)]
  | None => []
  end.

(** ** The trace of the target loop *)

Lemma out_bind {A B : Type} (m : M A) (k : A -> M B) (st : state) :
  out (bind m k st) = out (m st) ++ out (k (val (m st)) (post (m st))).
Proof. reflexivity. Qed.

Lemma post_bind {A B : Type} (m : M A) (k : A -> M B) (st : state) :
  post (bind m k st) = post (k (val (m st)) (post (m st))).
Proof. reflexivity. Qed.

Lemma val_bind {A B : Type} (m : M A) (k : A -> M B) (st : state) :
  val (bind m k st) = val (k (val (m st)) (post (m st))).
Proof. reflexivity. Qed.

Lemma forM__cons {A : Type} (x : A) (l : list A) (body : A -> M unit) :
  forM_ (x :: l) body = bind (body x) (fun _ => forM_ l body).
Proof. reflexivity. Qed.

Lemma forM__app {A : Type} (l1 l2 : list A) (body : A -> M unit) (st : state) :
  out (forM_ (l1 ++ l2) body st)
    = out (forM_ l1 body st) ++ out (forM_ l2 body (post (forM_ l1 body st)))
  /\ post (forM_ (l1 ++ l2) body st)
    = post (forM_ l2 body (post (forM_ l1 body st))).
Proof.
  revert st. induction l1 as [|x l1 IH]; intros st.
  - split; reflexivity.
  - rewrite <- app_comm_cons, !forM__cons, !out_bind, !post_bind.
    destruct (IH (post (body x st))) as [IHo IHp].
    rewrite IHo, IHp, app_assoc. split; reflexivity.
Qed.

(** What one target adds to the trace, [prev] being the display hostname of
    the target before it. *)
Lemma out_host_step (e : simulatorInfo) (extIP : IP) (prev host : string)
  (st : state) :
  out (host_step e extIP prev host st)
    = (if String.eqb prev (hostname_of host) then []
       else [EMsg (name e) (Sprintf (infoRun e) (hostname_of host))])
      ++ [ESimulate (name e) extIP host; ESleep (interval e)].
Proof.
  unfold host_step. rewrite !out_bind.
  destruct (String.eqb prev (hostname_of host)); reflexivity.
Qed.

Lemma val_host_step (e : simulatorInfo) (extIP : IP) (prev host : string)
  (st : state) :
  val (host_step e extIP prev host st) = hostname_of host.
Proof. reflexivity. Qed.

Lemma host_loop_cons (e : simulatorInfo) (extIP : IP) (prev host : string)
  (hosts : list string) :
  host_loop e extIP prev (host :: hosts)
    = bind (host_step e extIP prev host)
           (fun prev' => host_loop e extIP prev' hosts).
Proof. reflexivity. Qed.

(** The trace of the target loop, target by target. *)
Lemma out_host_loop (e : simulatorInfo) (extIP : IP) (hosts : list string) :
  forall (prev : string) (st : state),
    out (host_loop e extIP prev hosts st)
      = concat (imap (fun i host =>
          (if String.eqb (prev_hostname prev hosts i) (hostname_of host)
           then [] else [announcement e (hostname_of host)])
          ++ [ESimulate (name e) extIP host; ESleep (interval e)]) hosts).
Proof.
  induction hosts as [|host hosts IH]; intros prev st.
  - reflexivity.
  - rewrite host_loop_cons, out_bind, out_host_step, val_host_step, IH.
    rewrite imap_cons, concat_cons. f_equal.
    f_equal. apply imap_ext. intros i x _. destruct i; reflexivity.
Qed.

(** The loop hands every target to [Simulate], as it came. *)
Lemma simulate_host_loop (e : simulatorInfo) (extIP : IP) (hosts : list string) :
  forall (prev : string) (st : state),
    filter is_simulate (out (host_loop e extIP prev hosts st))
      = map (ESimulate (name e) extIP) hosts.
Proof.
  induction hosts as [|host hosts IH]; intros prev st.
  - reflexivity.
  - rewrite host_loop_cons, out_bind, out_host_step, filter_app, IH.
    destruct (String.eqb prev (hostname_of host)); reflexivity.
Qed.

Lemma same_store_refl (st : state) : same_store st st.
Proof. split; reflexivity. Qed.

Lemma same_store_trans (st1 st2 st3 : state) :
  same_store st1 st2 -> same_store st2 st3 -> same_store st1 st3.
Proof. intros [H1 H2] [H3 H4]. split; congruence. Qed.

Lemma host_loop_store (e : simulatorInfo) (extIP : IP) (hosts : list string) :
  forall (prev : string) (st : state),
    same_store st (post (host_loop e extIP prev hosts st)).
Proof.
  induction hosts as [|host hosts IH]; intros prev st.
  - apply same_store_refl.
  - rewrite host_loop_cons, post_bind.
    eapply same_store_trans; [|apply IH].
    unfold host_step. rewrite !post_bind.
    destruct (String.eqb prev (hostname_of host)); split; reflexivity.
Qed.

(** ** The trace of an entry and of a run *)

Lemma out_run_entry (extIP : IP) (gap : Duration) (e : simulatorInfo)
  (st : state) :
  out (run_entry extIP gap e st)
    = [EMsg (name e) "Starting"] ++ map (EMsg (name e)) (infoHeaders e)
      ++ [ESleep gap; EHosts (name e)]
      ++ failure_lines e (snd (hosts_of e (slept gap st)))
      ++ out (host_loop e extIP EmptyString (fst (hosts_of e (slept gap st)))
                (with_world st
                   (snd (Hosts (s e) (world (slept gap st))))))
      ++ [EMsg (name e) "Finished"].
Proof.
  unfold run_entry. rewrite !out_bind.
  unfold hosts_of, failure_lines, slept.
  cbn [printMsg emit Sleep call_Hosts val post out map world with_world
       mem simulatorNames].
  destruct (Hosts (s e) (elapse gap (world st))) as [[hosts [err|]] w'];
    cbn [fst snd out printMsg emit ret map app];
    rewrite <- ?app_assoc; reflexivity.
Qed.

Lemma run_entry_store (extIP : IP) (gap : Duration) (e : simulatorInfo)
  (st : state) :
  same_store st (post (run_entry extIP gap e st)).
Proof.
  unfold run_entry. rewrite !post_bind.
  cbn [printMsg emit Sleep post call_Hosts val world with_world].
  eapply same_store_trans; [|apply host_loop_store].
  destruct (Hosts (s e) (elapse gap (world st))) as [[hosts [err|]] w'];
    split; reflexivity.
Qed.

Lemma run_entries_store (extIP : IP) (gap : Duration) (l : list simulatorInfo) :
  forall st : state, same_store st (post (run_entries extIP gap l st)).
Proof.
  unfold run_entries. induction l as [|e l IH]; intros st.
  - apply same_store_refl.
  - rewrite forM__cons, post_bind.
    eapply same_store_trans; [apply run_entry_store | apply IH].
Qed.

Lemma run_entries_app (extIP : IP) (gap : Duration)
  (l1 l2 : list simulatorInfo) (st : state) :
  out (run_entries extIP gap (l1 ++ l2) st)
    = out (run_entries extIP gap l1 st)
      ++ out (run_entries extIP gap l2 (post (run_entries extIP gap l1 st)))
  /\ post (run_entries extIP gap (l1 ++ l2) st)
    = post (run_entries extIP gap l2 (post (run_entries extIP gap l1 st))).
Proof. apply forM__app. Qed.

Lemma run_entries_cons (extIP : IP) (gap : Duration) (e : simulatorInfo)
  (l : list simulatorInfo) (st : state) :
  out (run_entries extIP gap (e :: l) st)
    = out (run_entry extIP gap e st)
      ++ out (run_entries extIP gap l (post (run_entry extIP gap e st)))
  /\ post (run_entries extIP gap (e :: l) st)
    = post (run_entries extIP gap l (post (run_entry extIP gap e st))).
Proof. split; reflexivity. Qed.

Lemma out_run (simulators : slice) (extIP : IP) (gap : Duration) (st : state) :
  out (run simulators extIP gap st)
    = [EWelcome extIP; EHeader]
      ++ out (run_entries extIP gap (elems (mem st) simulators) st)
      ++ [EGoodbay].
Proof.
  unfold run. rewrite !out_bind. cbn [emit out post range val ret app].
  rewrite ?app_nil_r. reflexivity.
Qed.

Lemma post_run (simulators : slice) (extIP : IP) (gap : Duration) (st : state) :
  post (run simulators extIP gap st)
    = post (run_entries extIP gap (elems (mem st) simulators) st).
Proof. reflexivity. Qed.

Lemma val_run (simulators : slice) (extIP : IP) (gap : Duration) (st : state) :
  val (run simulators extIP gap st) = None.
Proof. reflexivity. Qed.

(** ** The memory: what [append] and the stores of the fast mode touch *)

Lemma catalog_in_place_length (h : heap) :
  catalog_in_place h -> (0 < length h)%nat.
Proof. intros H. apply lookup_lt_Some in H. exact H. Qed.

Lemma load_insert_eq (h : heap) (a : addr) (arr : list simulatorInfo) :
  (a < length h)%nat -> load (<[a := arr]> h) a = arr.
Proof. intros H. unfold load. rewrite list_lookup_insert_eq; done. Qed.

Lemma load_alloc (h : heap) (arr : list simulatorInfo) :
  load (h ++ [arr]) (length h) = arr.
Proof. unfold load. rewrite list_lookup_middle; done. Qed.

Lemma length_elems_own (h : heap) (sl : slice) :
  own_slice h sl -> length (elems h sl) = slen sl.
Proof.
  unfold own_slice, elems. destruct (array sl) as [a|].
  - intros (_ & _ & ->). rewrite take_ge by lia. reflexivity.
  - intros ->. reflexivity.
Qed.

Lemma elems_Some (h : heap) (a : addr) (n c : nat) :
  elems h (Slice (Some a) n c) = take n (load h a).
Proof. reflexivity. Qed.

Lemma own_slice_Some (h : heap) (a : addr) (n c : nat) :
  own_slice h (Slice (Some a) n c)
  <-> a <> 0%nat /\ (a < length h)%nat /\ n = length (load h a).
Proof. reflexivity. Qed.

Lemma append_grow_spec (sl : slice) (x : simulatorInfo) (st : state) :
  own_slice (mem st) sl -> catalog_in_place (mem st) ->
  let r := Res (Slice (Some (length (mem st))) (S (slen sl)) (growcap (scap sl)))
             [] (with_mem st (mem st ++ [elems (mem st) sl ++ [x]])) in
  elems (mem (post r)) (val r) = elems (mem st) sl ++ [x]
  /\ own_slice (mem (post r)) (val r)
  /\ catalog_in_place (mem (post r))
  /\ quiet st r.
Proof.
  intros Hown Hcat. pose proof (catalog_in_place_length _ Hcat) as Hlen.
  pose proof (length_elems_own _ _ Hown) as Hel.
  cbn [val post out mem with_mem].
  rewrite elems_Some, own_slice_Some, load_alloc, !length_app, Hel.
  cbn [length].
  split; [|split; [|split]].
  - apply take_ge. rewrite length_app, Hel. cbn. lia.
  - lia.
  - unfold catalog_in_place. rewrite lookup_app_l by exact Hlen. exact Hcat.
  - repeat split.
Qed.

Lemma append_spec (sl : slice) (x : simulatorInfo) (st : state) :
  own_slice (mem st) sl -> catalog_in_place (mem st) ->
  let r := append sl x st in
  elems (mem (post r)) (val r) = elems (mem st) sl ++ [x]
  /\ own_slice (mem (post r)) (val r)
  /\ catalog_in_place (mem (post r))
  /\ quiet st r.
Proof.
  intros Hown Hcat.
  pose proof (append_grow_spec sl x st Hown Hcat) as Hgrow.
  unfold append. unfold own_slice in Hown.
  destruct (array sl) as [a|] eqn:Harr; [|exact Hgrow].
  destruct (Nat.ltb (slen sl) (scap sl)); [|exact Hgrow].
  destruct Hown as (Ha0 & Halen & Hslen).
  cbn [val post out mem with_mem].
  rewrite elems_Some, own_slice_Some, load_insert_eq by exact Halen.
  rewrite length_insert.
  assert (Hel : elems (mem st) sl = load (mem st) a).
  { unfold elems. rewrite Harr, Hslen, take_ge by lia. reflexivity. }
  rewrite (take_ge (load (mem st) a) (slen sl)) by lia.
  rewrite (drop_ge (load (mem st) a) (S (slen sl))) by lia.
  rewrite Hel, length_app. cbn [length].
  split; [|split; [|split]].
  - apply take_ge. rewrite length_app. cbn. lia.
  - lia.
  - unfold catalog_in_place.
    rewrite list_lookup_insert_ne by exact Ha0. exact Hcat.
  - repeat split.
Qed.

Lemma quiet_ret {A : Type} (a : A) (st : state) : quiet st (ret a st).
Proof. repeat split. Qed.

Lemma quiet_bind {A B : Type} (m : M A) (k : A -> M B) (st : state) :
  quiet st (m st) -> quiet (post (m st)) (k (val (m st)) (post (m st))) ->
  quiet st (bind m k st).
Proof.
  intros (Ho1 & Hw1 & Hn1) (Ho2 & Hw2 & Hn2). unfold quiet.
  rewrite out_bind, post_bind, Ho1, Ho2, Hw2, Hn2. auto.
Qed.

Lemma select_loop_cons (names : list string) (e : simulatorInfo)
  (l : list simulatorInfo) (simulators : slice) :
  select_loop names (e :: l) simulators
    = bind (select_step names simulators e) (select_loop names l).
Proof. reflexivity. Qed.

Lemma select_step_spec (names : list string) (sl : slice) (e : simulatorInfo)
  (st : state) :
  own_slice (mem st) sl -> catalog_in_place (mem st) ->
  let r := select_step names sl e st in
  elems (mem (post r)) (val r)
    = elems (mem st) sl ++ filter (fun e => StringsContains names (name e)) [e]
  /\ own_slice (mem (post r)) (val r)
  /\ catalog_in_place (mem (post r))
  /\ quiet st r.
Proof.
  intros Hown Hcat. unfold select_step.
  destruct (StringsContains names (name e)) eqn:Hin.
  - rewrite filter_cons_True by (rewrite Hin; exact I).
    apply append_spec; assumption.
  - rewrite filter_cons_False by (rewrite Hin; exact id).
    rewrite filter_nil, app_nil_r. repeat split; assumption.
Qed.

(** The loop of the selector appends, in the order of [l], the entries of
    [l] whose name is requested, and writes nothing into the catalog. *)
Lemma select_loop_spec (names : list string) (l : list simulatorInfo) :
  forall (sl : slice) (st : state),
    own_slice (mem st) sl -> catalog_in_place (mem st) ->
    let r := select_loop names l sl st in
    elems (mem (post r)) (val r)
      = elems (mem st) sl ++ filter (fun e => StringsContains names (name e)) l
    /\ own_slice (mem (post r)) (val r)
    /\ catalog_in_place (mem (post r))
    /\ quiet st r.
Proof.
  induction l as [|e l IH]; intros sl st Hown Hcat.
  - rewrite filter_nil, app_nil_r. repeat split; assumption.
  - destruct (select_step_spec names sl e st Hown Hcat)
      as (Hel1 & Hown1 & Hcat1 & Hq1).
    destruct (IH _ _ Hown1 Hcat1) as (Hel2 & Hown2 & Hcat2 & Hq2).
    rewrite select_loop_cons. cbv zeta.
    rewrite val_bind, post_bind.
    rewrite Hel2, Hel1, <- app_assoc.
    split; [|split; [|split]]; try assumption.
    + f_equal. change (e :: l) with ([e] ++ l).
      rewrite filter_app. reflexivity.
    + apply quiet_bind; assumption.
Qed.

Lemma elems_allsimualtors (h : heap) :
  catalog_in_place h -> elems h allsimualtors = catalog.
Proof.
  unfold catalog_in_place. intros H.
  unfold allsimualtors. rewrite elems_Some. unfold load.
  rewrite H. reflexivity.
Qed.

Lemma selectSimulators_spec (names : list string) (st : state) :
  catalog_in_place (mem st) ->
  let r := selectSimulators names st in
  elems (mem (post r)) (val r)
    = filter (fun e => StringsContains names (name e)) catalog
  /\ own_slice (mem (post r)) (val r)
  /\ catalog_in_place (mem (post r))
  /\ quiet st r.
Proof.
  intros Hcat. unfold selectSimulators. cbv zeta.
  rewrite val_bind, post_bind. cbn [range val post].
  rewrite (elems_allsimualtors _ Hcat).
  assert (Hnil : own_slice (mem st) nil_slice) by reflexivity.
  destruct (select_loop_spec names catalog nil_slice st Hnil Hcat)
    as (Hel & Hown & Hcat' & Hq).
  split; [exact Hel|]. split; [exact Hown|]. split; [exact Hcat'|].
  apply quiet_bind; [repeat split|].
  cbn [range val post]. rewrite (elems_allsimualtors _ Hcat). exact Hq.
Qed.

Lemma store_interval_spec (sl : slice) (a : addr) (i : nat) (d : Duration)
  (st : state) :
  array sl = Some a -> a <> 0%nat -> (a < length (mem st))%nat ->
  let r := store_interval sl i d st in
  load (mem (post r)) a = alter (set_interval d) i (load (mem st) a)
  /\ length (mem (post r)) = length (mem st)
  /\ (catalog_in_place (mem st) -> catalog_in_place (mem (post r)))
  /\ quiet st r.
Proof.
  intros Harr Ha0 Halen. unfold store_interval. rewrite Harr.
  cbn [post mem with_mem].
  rewrite load_insert_eq by exact Halen.
  split; [reflexivity|]. split; [apply length_insert|].
  split; [|repeat split].
  unfold catalog_in_place. intros Hcat.
  rewrite list_lookup_insert_ne by exact Ha0. exact Hcat.
Qed.

(** The stores of the loop rewrite the cells [i .. i+n-1] of the array of
    [sl], and nothing else. *)
Lemma store_loop_spec (sl : slice) (a : addr) (d : Duration) (n : nat) :
  forall (i : nat) (st : state),
    array sl = Some a -> a <> 0%nat -> (a < length (mem st))%nat ->
    let r := forM_ (seq i n) (fun j => store_interval sl j d) st in
    (forall j : nat,
        load (mem (post r)) a !! j
          = if decide (i <= j < i + n)%nat
            then set_interval d <$> load (mem st) a !! j
            else load (mem st) a !! j)
    /\ length (mem (post r)) = length (mem st)
    /\ (catalog_in_place (mem st) -> catalog_in_place (mem (post r)))
    /\ quiet st r.
Proof.
  induction n as [|n IH]; intros i st Harr Ha0 Halen.
  - cbn [seq forM_ ret post]. split; [|repeat split; auto].
    intros j. destruct (decide (i <= j < i + 0)%nat); [lia | reflexivity].
  - destruct (store_interval_spec sl a i d st Harr Ha0 Halen)
      as (Hld1 & Hlen1 & Hcat1 & Hq1).
    assert (Halen1 : (a < length (mem (post (store_interval sl i d st))))%nat)
      by (rewrite Hlen1; exact Halen).
    destruct (IH (S i) _ Harr Ha0 Halen1) as (Hld2 & Hlen2 & Hcat2 & Hq2).
    cbn [seq]. rewrite forM__cons. cbv zeta. rewrite post_bind.
    split; [|split; [|split]].
    + intros j. rewrite Hld2, Hld1.
      destruct (decide (S i <= j < S i + n)%nat) as [Hin|Hout].
      * rewrite list_lookup_alter_ne by lia.
        destruct (decide (i <= j < i + S n)%nat); [reflexivity | lia].
      * destruct (decide (i = j)) as [<-|Hne].
        -- rewrite list_lookup_alter_eq.
           destruct (decide (i <= i < i + S n)%nat); [reflexivity | lia].
        -- rewrite list_lookup_alter_ne by exact Hne.
           destruct (decide (i <= j < i + S n)%nat); [lia | reflexivity].
    + rewrite Hlen2. exact Hlen1.
    + auto.
    + apply quiet_bind; assumption.
Qed.

(** The loop of the fast mode sets the interval of every element of the
    selection to zero, in the array of the selection. *)
Lemma zero_intervals_spec (sl : slice) (st : state) :
  own_slice (mem st) sl -> catalog_in_place (mem st) ->
  let r := zero_intervals sl st in
  elems (mem (post r)) sl = map (set_interval 0) (elems (mem st) sl)
  /\ catalog_in_place (mem (post r))
  /\ quiet st r.
Proof.
  intros Hown Hcat. unfold zero_intervals, own_slice in *.
  unfold elems. destruct (array sl) as [a|] eqn:Harr.
  - destruct Hown as (Ha0 & Halen & Hslen).
    destruct (store_loop_spec sl a 0 (slen sl) 0%nat st Harr Ha0 Halen)
      as (Hld & Hlen & Hcat' & Hq).
    split; [|split; [auto | exact Hq]].
    assert (Harr' :
      load (mem (post (forM_ (seq 0 (slen sl))
                         (fun i => store_interval sl i 0) st))) a
      = map (set_interval 0) (load (mem st) a)).
    { apply list_eq. intros j. rewrite Hld, list_lookup_fmap.
      destruct (decide (0 <= j < 0 + slen sl)%nat) as [Hin|Hout];
        [reflexivity|].
      rewrite (lookup_ge_None_2 (load (mem st) a) j) by lia. reflexivity. }
    cbv zeta. rewrite Harr'.
    rewrite !take_ge by (rewrite ?length_map; lia). reflexivity.
  - rewrite Hown. split; [reflexivity|]. split; [exact Hcat | repeat split].
Qed.

(** ** The command, case by case *)

Lemma catalog_in_place_init (w : World) : catalog_in_place (mem (init w)).
Proof. reflexivity. Qed.

(** An argument outside the names: the error, and nothing else. *)
Lemma RunE_rejected (fast : bool) (ifaceName : string) (args : list string)
  (st : state) (err : string) :
  check_args (simulatorNames st) args = Some err ->
  RunE fast ifaceName args st = Res (Some err) [] st.
Proof.
  intros H. unfold RunE, bind. cbn [get_simulatorNames val post out].
  rewrite H. reflexivity.
Qed.

(** The interface lookup fails: its error, after the lookup alone. *)
Lemma RunE_no_address (fast : bool) (ifaceName : string) (args : list string)
  (w : World) (err : string) :
  check_args (simulatorNames (init w)) args = None ->
  ExternalIP ifaceName w = inr err ->
  RunE fast ifaceName args (init w)
    = Res (Some err) [EExternalIP ifaceName]
          (State (mem (init w)) (requested args) w).
Proof.
  intros Hargs Hip. unfold RunE, bind.
  cbn [get_simulatorNames val post out]. rewrite Hargs.
  destruct args as [|arg args];
    cbn [length Nat.ltb Nat.leb set_simulatorNames ret call_ExternalIP
         val post out world init app];
    rewrite Hip; reflexivity.
Qed.

(** The run proper: the selection is run by [run], after the lookup. *)
Lemma RunE_runs (fast : bool) (ifaceName : string) (args : list string)
  (w : World) (extIP : IP) :
  check_args (simulatorNames (init w)) args = None ->
  ExternalIP ifaceName w = inl extIP ->
  exists h : heap,
    catalog_in_place h /\
    let st := State h (requested args) w in
    let r := RunE fast ifaceName args (init w) in
    let t := run_entries extIP (gap_of fast)
               (selection fast (requested args)) st in
    val r = None
    /\ out r = [EExternalIP ifaceName; EWelcome extIP; EHeader]
               ++ out t ++ [EGoodbay]
    /\ post r = post t.
Proof.
  intros Hargs Hip.
  set (st1 := State (mem (init w)) (requested args) w).
  assert (Hcat1 : catalog_in_place (mem st1)) by reflexivity.
  destruct (selectSimulators_spec (requested args) st1 Hcat1)
    as (Hel & Hown & Hcat2 & Hq2).
  set (r2 := selectSimulators (requested args) st1) in *.
  exists (mem (post (if fast then zero_intervals (val r2) (post r2)
                     else ret tt (post r2)))).
  assert (Hst : post r2 = State (mem (post r2)) (requested args) w).
  { destruct Hq2 as (_ & Hw & Hn). destruct (post r2) as [h n w'].
    cbn in Hw, Hn. subst. reflexivity. }
  unfold RunE.
  rewrite val_bind, out_bind, post_bind.
  cbn [get_simulatorNames val post out]. rewrite Hargs.
  rewrite val_bind, out_bind, post_bind.
  replace (post ((if Nat.ltb 0 (length args) then set_simulatorNames args
                  else ret tt) (init w))) with st1
    by (destruct args; reflexivity).
  replace (out ((if Nat.ltb 0 (length args) then set_simulatorNames args
                 else ret tt) (init w))) with (@nil event)
    by (destruct args; reflexivity).
  rewrite val_bind, out_bind, post_bind.
  cbn [call_ExternalIP val post out world st1]. rewrite Hip.
  rewrite !val_bind, !out_bind, !post_bind.
  cbn [get_simulatorNames val post out simulatorNames st1].
  fold st1. fold r2.
  destruct Hq2 as (Ho2 & _ & _). rewrite Ho2.
  cbn [ret val out post app]. rewrite app_nil_r.
  destruct fast.
  - destruct (zero_intervals_spec (val r2) (post r2) Hown Hcat2)
      as (Hel3 & Hcat3 & Ho3 & Hw3 & Hn3).
    set (r3 := zero_intervals (val r2) (post r2)) in *.
    assert (Hst3 : post r3 = State (mem (post r3)) (requested args) w).
    { rewrite Hst in Hw3, Hn3. destruct (post r3) as [h n w'].
      cbn in Hw3, Hn3. subst. reflexivity. }
    split; [exact Hcat3|]. split; [reflexivity|].
    rewrite val_bind, out_bind, post_bind. fold r3.
    cbn [ret val out post]. rewrite Ho3, app_nil_r, out_run, post_run.
    unfold selection, gap_of. rewrite Hel3, Hel, <- Hst3.
    split; reflexivity.
  - cbn [ret val out post app].
    split; [exact Hcat2|]. split; [reflexivity|].
    rewrite out_run, post_run.
    unfold selection, gap_of. rewrite Hel, <- Hst.
    split; reflexivity.
Qed.

(** ** Names and arguments *)

Lemma StringsContains_spec (a : list string) (x : string) :
  StringsContains a x = true <-> x ∈ a.
Proof using.
  induction a as [|y a IH]; cbn [StringsContains].
  - split; [discriminate | intros H; inversion H].
  - rewrite elem_of_cons. destruct (String.eqb y x) eqn:Heq.
    + apply String.eqb_eq in Heq.
      split; [intros _; left; symmetry; exact Heq | reflexivity].
    + apply String.eqb_neq in Heq. rewrite IH. split.
      * intros H. right. exact H.
      * intros [H|H]; [|exact H]. exfalso. apply Heq. symmetry. exact H.
Qed.

Lemma names_of_catalog : map name catalog = ["c2-dns"; "dga"; "scan"; "tunnel"].
Proof. reflexivity. Qed.

Lemma check_args_None (names args : list string) :
  check_args names args = None <-> (forall arg, arg ∈ args -> arg ∈ names).
Proof using.
  induction args as [|arg args IH]; cbn [check_args].
  - split; [intros _ x H; inversion H | reflexivity].
  - destruct (StringsContains names arg) eqn:Hin; cbn [negb].
    + apply StringsContains_spec in Hin. rewrite IH. split.
      * intros H x. rewrite elem_of_cons. intros [->|Hx]; auto.
      * intros H x Hx. apply H. rewrite elem_of_cons. auto.
    + split; [discriminate|]. intros H.
      assert (Harg : arg ∈ names) by (apply H; rewrite elem_of_cons; auto).
      apply StringsContains_spec in Harg. congruence.
Qed.

Lemma check_args_Some (names args : list string) (err : string) :
  check_args names args = Some err ->
  exists arg, arg ∈ args /\ ~ (arg ∈ names)
              /\ err = Sprintf "simulator %s not recognized" arg.
Proof using.
  induction args as [|arg args IH]; cbn [check_args]; [discriminate|].
  destruct (StringsContains names arg) eqn:Hin; cbn [negb].
  - intros H. destruct (IH H) as (x & Hx & Hnot & Herr).
    exists x. rewrite elem_of_cons. auto.
  - intros [= <-]. exists arg. rewrite elem_of_cons.
    split; [auto|]. split; [|reflexivity].
    rewrite <- StringsContains_spec. congruence.
Qed.

(** ** Sleeps *)

Lemma sleeps_app (t1 t2 : list event) :
  sleeps (t1 ++ t2) = sleeps t1 ++ sleeps t2.
Proof.
  induction t1 as [|ev t1 IH]; [reflexivity|].
  destruct ev; cbn [app sleeps]; rewrite IH; reflexivity.
Qed.

Lemma sleeps_msgs (module : string) (msgs : list string) :
  sleeps (map (EMsg module) msgs) = [].
Proof. induction msgs as [|m msgs IH]; [reflexivity | exact IH]. Qed.

Lemma sleeps_host_loop (e : simulatorInfo) (extIP : IP) (hosts : list string) :
  forall (prev : string) (st : state),
    Forall (fun d => d = interval e)
           (sleeps (out (host_loop e extIP prev hosts st))).
Proof.
  induction hosts as [|host hosts IH]; intros prev st.
  - constructor.
  - rewrite host_loop_cons, out_bind, out_host_step, !sleeps_app.
    apply Forall_app; split; [|apply IH].
    destruct (String.eqb prev (hostname_of host)); repeat constructor.
Qed.

(** An entry sleeps for the pause of the run, once, and for its own
    interval. *)
Lemma sleeps_run_entry (extIP : IP) (gap : Duration) (e : simulatorInfo)
  (st : state) :
  Forall (fun d => d = gap \/ d = interval e)
         (sleeps (out (run_entry extIP gap e st))).
Proof.
  rewrite out_run_entry, !sleeps_app, sleeps_msgs.
  cbn [sleeps app]. constructor; [auto|].
  apply Forall_app; split.
  - unfold failure_lines. destruct (snd (hosts_of e (slept gap st))); constructor.
  - rewrite app_nil_r. eapply Forall_impl; [apply sleeps_host_loop|].
    cbn. auto.
Qed.

Lemma sleeps_run_entries (extIP : IP) (gap : Duration) (l : list simulatorInfo) :
  forall st : state,
    Forall (fun d => d = gap \/ exists e, e ∈ l /\ d = interval e)
           (sleeps (out (run_entries extIP gap l st))).
Proof.
  induction l as [|e l IH]; intros st.
  - constructor.
  - destruct (run_entries_cons extIP gap e l st) as [-> _].
    rewrite sleeps_app. apply Forall_app; split.
    + eapply Forall_impl; [apply sleeps_run_entry|].
      intros d [->| ->]; [auto|]. right. exists e. rewrite elem_of_cons. auto.
    + eapply Forall_impl; [apply IH|].
      intros d [->|(e' & He' & ->)]; [auto|].
      right. exists e'. rewrite elem_of_cons. auto.
Qed.

(** ** The selector *)

Lemma filter_requested (names : list string) :
  filter (fun e : simulatorInfo => StringsContains names (name e)) catalog
    = filter (fun e : simulatorInfo => name e ∈ names) catalog.
Proof.
  apply list_filter_iff. intros e. rewrite <- StringsContains_spec.
  destruct (StringsContains names (name e)); cbn; split; auto; discriminate.
Qed.

(** C2: for every list of requested names, [selectSimulators] returns
    exactly the entries of the catalog whose name is in the list, as a
    subsequence of the catalog and so in the catalog's order; two lists with
    the same names, in whatever order, select the same entries; and
    ["tunnel"; "c2-dns"] selects c2-dns before tunnel. (Names outside the
    catalog select nothing, so the statement needs no condition on them.) *)
Theorem selectSimulators_catalog_order (names : list string) (w : World) :
  let selected (ns : list string) :=
    let r := selectSimulators ns (init w) in elems (mem (post r)) (val r) in
  selected names = filter (fun e => name e ∈ names) catalog
  /\ sublist (selected names) catalog
  /\ (forall names' : list string,
        (forall n, n ∈ names <-> n ∈ names') ->
        selected names' = selected names)
  /\ map name (selected ["tunnel"; "c2-dns"]) = ["c2-dns"; "tunnel"].
Proof.
  assert (Hsel : forall ns,
    elems (mem (post (selectSimulators ns (init w))))
          (val (selectSimulators ns (init w)))
    = filter (fun e => name e ∈ ns) catalog).
  { intros ns.
    destruct (selectSimulators_spec ns (init w) (catalog_in_place_init w))
      as (Hel & _). cbv zeta in *. rewrite Hel. apply filter_requested. }
  cbv beta zeta. rewrite !Hsel.
  split; [reflexivity|]. split; [apply sublist_filter|]. split.
  - intros names' Hsame. rewrite Hsel. apply list_filter_iff.
    intros e. symmetry. apply Hsame.
  - reflexivity.
Qed.

Lemma selection_all (names : list string) :
  (forall n, n ∈ map name catalog -> n ∈ names) ->
  selection false names = catalog.
Proof.
  intros H. unfold selection. rewrite filter_requested.
  assert (Hall : Forall (fun e => name e ∈ names) catalog).
  { apply Forall_forall. intros e He. apply H.
    apply list_elem_of_fmap. exists e. split; [reflexivity | exact He]. }
  revert Hall. generalize catalog. intros l Hall.
  induction Hall as [|e l He _ IH]; [reflexivity|].
  rewrite filter_cons_True by exact He. rewrite IH. reflexivity.
Qed.

(** C7: with no argument, [RunE] hands the selector the four names of the
    catalog and the selector returns the whole catalog in its order; the
    command does exactly what it does when all four names are given; and
    when the interface has an address, what the command runs is the whole
    catalog, entry by entry. *)
Theorem no_argument_selects_whole_catalog (fast : bool) (ifaceName : string)
  (w : World) :
  requested [] = map name catalog
  /\ (let r := selectSimulators (requested []) (init w) in
      elems (mem (post r)) (val r) = catalog)
  /\ RunE fast ifaceName [] (init w)
     = RunE fast ifaceName (map name catalog) (init w)
  /\ forall extIP : IP,
       ExternalIP ifaceName w = inl extIP ->
       exists st : state,
         out (RunE false ifaceName [] (init w))
           = [EExternalIP ifaceName; EWelcome extIP; EHeader]
             ++ out (run_entries extIP (2 * Second) catalog st)
             ++ [EGoodbay].
Proof.
  split; [reflexivity|]. split; [|split].
  - destruct (selectSimulators_spec (requested []) (init w)
                (catalog_in_place_init w)) as (Hel & _).
    cbv zeta in *. rewrite Hel. reflexivity.
  - reflexivity.
  - intros extIP Hip.
    destruct (RunE_runs false ifaceName [] w extIP eq_refl Hip)
      as (h & _ & _ & Hout & _).
    rewrite selection_all in Hout by (intros n Hn; exact Hn).
    eexists. exact Hout.
Qed.

(** ** Fatal errors *)

(** C3: when some argument is not the name of a catalog entry, [RunE] returns
    the error for such an argument with an empty trace (no interface lookup,
    no call of [Hosts] or [Simulate], no entry started) and an unchanged
    state; when the arguments are all known and the interface lookup fails,
    [RunE] returns that error and the trace holds the lookup alone. *)
Theorem fatal_errors_run_nothing (fast : bool) (ifaceName : string)
  (args : list string) (w : World) :
  ((exists arg, arg ∈ args /\ ~ (arg ∈ map name catalog)) ->
   exists arg, arg ∈ args /\ ~ (arg ∈ map name catalog)
     /\ RunE fast ifaceName args (init w)
        = Res (Some (Sprintf "simulator %s not recognized" arg)) [] (init w))
  /\ (forall err : string,
        (forall arg, arg ∈ args -> arg ∈ map name catalog) ->
        ExternalIP ifaceName w = inr err ->
        RunE fast ifaceName args (init w)
          = Res (Some err) [EExternalIP ifaceName]
                (State (mem (init w)) (requested args) w)).
Proof.
  split.
  - intros (arg & Harg & Hnot).
    destruct (check_args (simulatorNames (init w)) args) as [err|] eqn:Hchk.
    + destruct (check_args_Some _ _ _ Hchk) as (x & Hx & Hxnot & ->).
      exists x. split; [exact Hx|]. split; [exact Hxnot|].
      apply RunE_rejected. exact Hchk.
    + exfalso. apply Hnot. exact (proj1 (check_args_None _ _) Hchk arg Harg).
  - intros err Hknown Hip. apply RunE_no_address; [|exact Hip].
    apply check_args_None. exact Hknown.
Qed.

(** ** Pacing *)

Lemma interval_selection_fast (names : list string) (e : simulatorInfo) :
  e ∈ selection true names -> interval e = 0.
Proof.
  unfold selection. intros H. apply list_elem_of_fmap in H.
  destruct H as (e0 & -> & _). reflexivity.
Qed.

(** C9: in fast mode every sleep of the command, whatever the arguments,
    the interface and the world, has duration zero; and when the command
    reaches [run], what it runs is the selection with every interval set to
    zero, under a pause of zero between entries. *)
Theorem fast_mode_never_waits (ifaceName : string) (args : list string)
  (w : World) :
  Forall (fun d => d = 0) (sleeps (out (RunE true ifaceName args (init w))))
  /\ forall extIP : IP,
       (forall arg, arg ∈ args -> arg ∈ map name catalog) ->
       ExternalIP ifaceName w = inl extIP ->
       let l := map (set_interval 0)
                  (filter (fun e => name e ∈ requested args) catalog) in
       Forall (fun e => interval e = 0) l
       /\ exists st : state,
            out (RunE true ifaceName args (init w))
              = [EExternalIP ifaceName; EWelcome extIP; EHeader]
                ++ out (run_entries extIP 0 l st) ++ [EGoodbay].
Proof.
  split.
  - destruct (check_args (simulatorNames (init w)) args) as [err|] eqn:Hchk.
    { rewrite (RunE_rejected _ _ _ _ _ Hchk). constructor. }
    destruct (ExternalIP ifaceName w) as [extIP|err] eqn:Hip.
    + destruct (RunE_runs true ifaceName args w extIP Hchk Hip)
        as (h & _ & _ & Hout & _).
      rewrite Hout, !sleeps_app. cbn [sleeps app]. rewrite app_nil_r.
      eapply Forall_impl; [apply sleeps_run_entries|].
      intros d [->|(e & He & ->)]; [reflexivity|].
      exact (interval_selection_fast _ _ He).
    + rewrite (RunE_no_address _ _ _ _ _ Hchk Hip). constructor.
  - intros extIP Hknown Hip. cbv zeta. rewrite <- filter_requested.
    change (map (set_interval 0)
              (filter (fun e => StringsContains (requested args) (name e))
                      catalog))
      with (selection true (requested args)).
    split.
    + apply Forall_forall. intros e. apply interval_selection_fast.
    + assert (Hchk : check_args (simulatorNames (init w)) args = None)
        by (apply check_args_None; exact Hknown).
      destruct (RunE_runs true ifaceName args w extIP Hchk Hip)
        as (h & _ & _ & Hout & _).
      eexists. exact Hout.
Qed.

(** ** The catalog stays as it is *)

(** C10: whatever the flags, the arguments and the world, after [RunE] the
    array of the catalog holds the four entries of the literal, unchanged,
    and [allsimualtors] still shows them: the selection is built in arrays
    of its own and the stores of the fast mode go to those arrays. *)
Theorem catalog_never_mutated (fast : bool) (ifaceName : string)
  (args : list string) (w : World) :
  let r := RunE fast ifaceName args (init w) in
  mem (post r) !! 0%nat = Some catalog
  /\ elems (mem (post r)) allsimualtors = catalog
  /\ map interval (elems (mem (post r)) allsimualtors)
     = [500 * Millisecond; 500 * Millisecond; 0; 500 * Millisecond].
Proof.
  cbv zeta.
  assert (H : catalog_in_place (mem (post (RunE fast ifaceName args (init w))))).
  { destruct (check_args (simulatorNames (init w)) args) as [err|] eqn:Hchk.
    { rewrite (RunE_rejected _ _ _ _ _ Hchk). reflexivity. }
    destruct (ExternalIP ifaceName w) as [extIP|err] eqn:Hip.
    - destruct (RunE_runs fast ifaceName args w extIP Hchk Hip)
        as (h & Hcat & _ & _ & Hpost).
      rewrite Hpost.
      destruct (run_entries_store extIP (gap_of fast)
                  (selection fast (requested args))
                  (State h (requested args) w)) as [-> _].
      exact Hcat.
    - rewrite (RunE_no_address _ _ _ _ _ Hchk Hip). reflexivity. }
  split; [exact H|]. rewrite (elems_allsimualtors _ H).
  split; reflexivity.
Qed.

(** ** [net.SplitHostPort] on plain hosts and ports *)

Lemma len_nonneg (s : string) : 0 <= len s.
Proof. unfold len. lia. Qed.

Lemma len_String (x : ascii) (s : string) : len (String x s) = len s + 1.
Proof. unfold len. cbn [String.length]. lia. Qed.

Lemma append_nil_l (b : string) : EmptyString +:+ b = b.
Proof. reflexivity. Qed.

Lemma append_String (x : ascii) (a b : string) :
  String x a +:+ b = String x (a +:+ b).
Proof. reflexivity. Qed.

Lemma len_append (a b : string) : len (a +:+ b) = len a + len b.
Proof.
  induction a as [|x a IH].
  - rewrite append_nil_l. unfold len. cbn [String.length]. lia.
  - rewrite append_String, !len_String, IH. lia.
Qed.

Lemma IndexByteString_absent (s : string) (c : ascii) :
  has_byte s c = false -> IndexByteString s c = -1.
Proof.
  induction s as [|x s IH]; cbn [IndexByteString has_byte]; [reflexivity|].
  intros H. apply orb_false_iff in H. destruct H as [-> H].
  rewrite (IH H). reflexivity.
Qed.

Lemma has_byte_append (a b : string) (c : ascii) :
  has_byte (a +:+ b) c = has_byte a c || has_byte b c.
Proof.
  induction a as [|x a IH]; [reflexivity|].
  rewrite append_String. cbn [has_byte]. rewrite IH, orb_assoc. reflexivity.
Qed.

Lemma LastIndexByteString_absent (s : string) (c : ascii) :
  has_byte s c = false -> LastIndexByteString s c = -1.
Proof.
  induction s as [|x s IH]; cbn [LastIndexByteString has_byte]; [reflexivity|].
  intros H. apply orb_false_iff in H. destruct H as [-> H].
  rewrite (IH H). reflexivity.
Qed.

(** The last colon of [h:p] is the one written between [h] and [p], when
    [p] has none. *)
Lemma LastIndexByteString_join (h p : string) :
  has_byte p ":" = false ->
  LastIndexByteString (h +:+ String ":" p) ":" = len h.
Proof.
  intros Hp. induction h as [|x h IH].
  - rewrite append_nil_l. cbn [LastIndexByteString].
    rewrite (LastIndexByteString_absent _ _ Hp). reflexivity.
  - rewrite append_String. cbn [LastIndexByteString]. rewrite IH, len_String.
    pose proof (len_nonneg h).
    destruct (0 <=? len h) eqn:Hle; [reflexivity | lia].
Qed.

Lemma substring_prefix (a b : string) :
  String.substring 0 (String.length a) (a +:+ b) = a.
Proof.
  induction a as [|x a IH].
  - destruct b; reflexivity.
  - rewrite append_String. cbn [String.length String.substring]. rewrite IH.
    reflexivity.
Qed.

Lemma substring_whole (s : string) :
  String.substring 0 (String.length s) s = s.
Proof.
  induction s as [|x s IH]; [reflexivity|].
  cbn [String.length String.substring]. rewrite IH. reflexivity.
Qed.

Lemma substring_suffix (a b : string) :
  String.substring (String.length a) (String.length b) (a +:+ b) = b.
Proof.
  induction a as [|x a IH].
  - apply substring_whole.
  - rewrite append_String. cbn [String.length String.substring]. exact IH.
Qed.

Lemma from_0 (s : string) : from s 0 = s.
Proof.
  unfold from, sub, len. rewrite Z.sub_0_r, Nat2Z.id. apply substring_whole.
Qed.


Lemma from_suffix (a b : string) : from (a +:+ b) (len a) = b.
Proof.
  unfold from, sub. rewrite len_append.
  replace (len a + len b - len a) with (len b) by lia.
  unfold len. rewrite !Nat2Z.id. apply substring_suffix.
Qed.





(** ** Display hostnames and progress lines *)

Lemma simulate_run_entry (extIP : IP) (gap : Duration) (e : simulatorInfo)
  (st : state) :
  filter is_simulate (out (run_entry extIP gap e st))
    = map (ESimulate (name e) extIP) (fst (hosts_of e (slept gap st))).
Proof.
  rewrite out_run_entry, !filter_app, simulate_host_loop.
  assert (Hm : forall l, filter is_simulate (map (EMsg (name e)) l) = []).
  { induction l as [|m l IH]; [reflexivity | exact IH]. }
  rewrite Hm. unfold failure_lines.
  destruct (snd (hosts_of e (slept gap st))); cbn; rewrite app_nil_r; reflexivity.
Qed.


Lemma eqb_decide (a b : string) (A : Type) (x y : A) :
  (if String.eqb a b then x else y) = (if decide (a = b) then x else y).
Proof.
  destruct (String.eqb_spec a b), (decide (a = b)); congruence.
Qed.

(** C4 (amended): the trace of an entry is its opening lines, then, for each
    target in order, the progress line for its display hostname exactly when
    that hostname differs from the display hostname of the target before it
    (from the empty string, for the first target), followed by the call of
    [Simulate] on the target and the sleep of the entry, then the closing
    line. So [Simulate] is called once per target, announced or not, and the
    targets a:80, a:443, b:22 give two progress lines, for a and for b. *)
Theorem progress_line_when_hostname_changes (extIP : IP) (gap : Duration)
  (e : simulatorInfo) (st : state) :
  let hosts := fst (hosts_of e (slept gap st)) in
  out (run_entry extIP gap e st)
    = [EMsg (name e) "Starting"] ++ map (EMsg (name e)) (infoHeaders e)
      ++ [ESleep gap; EHosts (name e)]
      ++ failure_lines e (snd (hosts_of e (slept gap st)))
      ++ concat (imap (fun i host =>
           (if decide (prev_hostname EmptyString hosts i = hostname_of host)
            then [] else [announcement e (hostname_of host)])
           ++ [ESimulate (name e) extIP host; ESleep (interval e)]) hosts)
      ++ [EMsg (name e) "Finished"]
  /\ filter is_simulate (out (run_entry extIP gap e st))
     = map (ESimulate (name e) extIP) hosts
  /\ filter is_msg
       (out (host_loop e extIP EmptyString ["a:80"; "a:443"; "b:22"] st))
     = [announcement e "a"; announcement e "b"].
Proof.
  cbv zeta. split; [|split].
  - rewrite out_run_entry, out_host_loop.
    erewrite imap_ext; [reflexivity|].
    intros i host _. cbv beta. rewrite eqb_decide. reflexivity.
  - apply simulate_run_entry.
  - rewrite !host_loop_cons, !out_bind, !out_host_step.
    vm_compute. reflexivity.
Qed.


(** ** Entries one after the other *)

Lemma run_entries_split (extIP : IP) (gap : Duration)
  (l1 l2 : list simulatorInfo) (e : simulatorInfo) (st : state) :
  out (run_entries extIP gap (l1 ++ e :: l2) st)
    = out (run_entries extIP gap l1 st)
      ++ out (run_entry extIP gap e (post (run_entries extIP gap l1 st)))
      ++ out (run_entries extIP gap l2
                (post (run_entries extIP gap (l1 ++ [e]) st))).
Proof.
  destruct (run_entries_app extIP gap l1 (e :: l2) st) as [-> _].
  destruct (run_entries_cons extIP gap e l2
              (post (run_entries extIP gap l1 st))) as [-> _].
  destruct (run_entries_app extIP gap l1 [e] st) as [_ ->].
  reflexivity.
Qed.

(** C8 (amended): in normal mode [RunE] hands [run] a pause of two seconds,
    and every entry of the selection contributes to the trace its "Starting"
    line, its phase descriptions, then the pause, then the call of [Hosts]:
    the pause follows the phase descriptions of the entry. *)
Theorem normal_pause_follows_phase_descriptions (ifaceName : string)
  (args : list string) (w : World) (extIP : IP) :
  (forall arg, arg ∈ args -> arg ∈ map name catalog) ->
  ExternalIP ifaceName w = inl extIP ->
  gap_of false = 2 * Second
  /\ forall (l1 l2 : list simulatorInfo) (e : simulatorInfo),
       selection false (requested args) = l1 ++ e :: l2 ->
       exists t1 t2 : list event,
         out (RunE false ifaceName args (init w))
           = t1 ++ [EMsg (name e) "Starting"]
                ++ map (EMsg (name e)) (infoHeaders e)
                ++ [ESleep (2 * Second); EHosts (name e)] ++ t2.
Proof.
  intros Hknown Hip. split; [reflexivity|].
  intros l1 l2 e Hsel.
  assert (Hchk : check_args (simulatorNames (init w)) args = None)
    by (apply check_args_None; exact Hknown).
  destruct (RunE_runs false ifaceName args w extIP Hchk Hip)
    as (h & _ & _ & Hout & _).
  rewrite Hout, Hsel, run_entries_split, out_run_entry.
  change (gap_of false) with (2 * Second).
  set (st0 := State h (requested args) w).
  set (st1 := post (run_entries extIP (2 * Second) l1 st0)).
  exists ([EExternalIP ifaceName; EWelcome extIP; EHeader]
          ++ out (run_entries extIP (2 * Second) l1 st0)).
  exists (failure_lines e (snd (hosts_of e (slept (2 * Second) st1)))
          ++ out (host_loop e extIP EmptyString (fst (hosts_of e (slept (2 * Second) st1)))
                    (with_world st1
                       (snd (Hosts (s e) (world (slept (2 * Second) st1))))))
          ++ [EMsg (name e) "Finished"]
          ++ out (run_entries extIP (2 * Second) l2
                    (post (run_entries extIP (2 * Second) (l1 ++ [e]) st0)))
          ++ [EGoodbay]).
  rewrite <- !app_assoc. reflexivity.
Qed.

(** C1: [run] returns nil, and when [Hosts] fails for an entry the run goes
    on: the trace of the run is the two opening events, the traces of the
    entries up to a later entry [e'], the whole trace of [e'], the traces of
    the entries after it and the closing [EGoodbay]. The trace of [e'] calls
    [Simulate] on each of its targets, in order, and announces its first
    target when that target has a display hostname. *)
Theorem run_continues_past_failed_entry (simulators : slice) (extIP : IP)
  (gap : Duration) (st : state)
  (before between after : list simulatorInfo) (e e' : simulatorInfo) :
  elems (mem st) simulators = before ++ e :: between ++ e' :: after ->
  snd (hosts_of e (slept gap (post (run_entries extIP gap before st))))
    <> None ->
  let st' := post (run_entries extIP gap (before ++ e :: between) st) in
  let r := run simulators extIP gap st in
  val r = None
  /\ out r = [EWelcome extIP; EHeader]
             ++ out (run_entries extIP gap (before ++ e :: between) st)
             ++ out (run_entry extIP gap e' st')
             ++ out (run_entries extIP gap after
                       (post (run_entry extIP gap e' st')))
             ++ [EGoodbay]
  /\ filter is_simulate (out (run_entry extIP gap e' st'))
     = map (ESimulate (name e') extIP) (fst (hosts_of e' (slept gap st')))
  /\ (forall host hosts,
        fst (hosts_of e' (slept gap st')) = host :: hosts ->
        hostname_of host <> EmptyString ->
        announcement e' (hostname_of host) ∈ out r).
Proof.
  intros Hel Hfail. cbv zeta.
  assert (Hout : out (run simulators extIP gap st)
    = [EWelcome extIP; EHeader]
      ++ out (run_entries extIP gap (before ++ e :: between) st)
      ++ out (run_entry extIP gap e'
                (post (run_entries extIP gap (before ++ e :: between) st)))
      ++ out (run_entries extIP gap after
                (post (run_entry extIP gap e'
                   (post (run_entries extIP gap (before ++ e :: between) st)))))
      ++ [EGoodbay]).
  { rewrite out_run, Hel.
    replace (before ++ e :: between ++ e' :: after)
      with ((before ++ e :: between) ++ e' :: after)
      by (rewrite <- app_assoc; reflexivity).
    rewrite run_entries_split.
    destruct (run_entries_app extIP gap (before ++ e :: between) [e'] st)
      as [_ ->].
    rewrite <- !app_assoc. reflexivity. }
  split; [reflexivity|]. split; [exact Hout|]. split.
  - apply simulate_run_entry.
  - intros host hosts Hhosts Hname. rewrite Hout.
    apply elem_of_app. right. apply elem_of_app. right.
    apply elem_of_app. left.
    rewrite out_run_entry, Hhosts, host_loop_cons, out_bind, out_host_step.
    destruct (String.eqb_spec EmptyString (hostname_of host)) as [Heq|_];
      [congruence|].
    rewrite !elem_of_app. right. right. right. right. left. left. left.
    apply list_elem_of_singleton. reflexivity.
Qed.


(** ** What a split target is made of *)

Lemma substring_add (s : string) :
  forall n m1 m2 : nat,
    String.substring n (m1 + m2) s
      = String.substring n m1 s +:+ String.substring (n + m1) m2 s.
Proof.
  induction s as [|x s IH]; intros n m1 m2.
  - destruct n, m1, m2; reflexivity.
  - destruct n as [|n].
    + destruct m1 as [|m1]; [reflexivity|].
      cbn [Nat.add String.substring]. rewrite append_String.
      f_equal. apply (IH 0%nat).
    + cbn [Nat.add String.substring]. apply IH.
Qed.

Lemma sub_split (s : string) (a b c : Z) :
  0 <= a -> a <= b -> b <= c ->
  sub s a c = sub s a b +:+ sub s b c.
Proof.
  intros Ha Hab Hbc. unfold sub.
  replace (Z.to_nat (c - a)) with (Z.to_nat (b - a) + Z.to_nat (c - b))%nat
    by lia.
  rewrite substring_add. do 2 f_equal. lia.
Qed.

Lemma sub_whole (s : string) : sub s 0 (len s) = s.
Proof. apply from_0. Qed.

Lemma get_substring (s : string) :
  forall (n : nat) (x : ascii),
    String.get n s = Some x ->
    String.substring n 1 s = String x EmptyString.
Proof.
  induction s as [|y s IH]; intros n x H.
  - destruct n; discriminate H.
  - destruct n as [|n].
    + cbn in H. injection H as ->. cbn [String.substring].
      destruct s; reflexivity.
    + cbn [String.substring]. apply IH. exact H.
Qed.

Lemma sub_byte (s : string) (i : Z) (x : ascii) :
  byte_at s i = Some x -> sub s i (i + 1) = String x EmptyString.
Proof.
  unfold byte_at, sub. destruct (i <? 0) eqn:Hi; [discriminate|].
  intros H. replace (Z.to_nat (i + 1 - i)) with 1%nat by lia.
  apply get_substring. exact H.
Qed.

Lemma byte_at_String (x : ascii) (s : string) (i : Z) :
  0 <= i -> byte_at (String x s) (i + 1) = byte_at s i.
Proof.
  intros Hi. unfold byte_at.
  destruct (i + 1 <? 0) eqn:H1; [lia|].
  destruct (i <? 0) eqn:H2; [lia|].
  replace (Z.to_nat (i + 1)) with (S (Z.to_nat i)) by lia. reflexivity.
Qed.

(** The index that [IndexByteString] returns is in range and holds the
    byte. *)
Lemma IndexByteString_found (s : string) (c : ascii) :
  0 <= IndexByteString s c ->
  IndexByteString s c < len s /\ byte_at s (IndexByteString s c) = Some c.
Proof.
  induction s as [|x s IH]; cbn [IndexByteString].
  - intros H. exfalso. lia.
  - rewrite len_String. pose proof (len_nonneg s) as Hlen.
    destruct (Ascii.eqb_spec x c) as [->|Hne].
    + intros _. split; [lia | reflexivity].
    + destruct (IndexByteString s c <? 0) eqn:Hlt; [intros H; exfalso; lia|].
      intros _. assert (H0 : 0 <= IndexByteString s c) by lia.
      destruct (IH H0) as [Hr Hb]. split; [lia|].
      rewrite byte_at_String by exact H0. exact Hb.
Qed.

Lemma LastIndexByteString_found (s : string) (c : ascii) :
  0 <= LastIndexByteString s c ->
  LastIndexByteString s c < len s
  /\ byte_at s (LastIndexByteString s c) = Some c.
Proof.
  induction s as [|x s IH]; cbn [LastIndexByteString].
  - intros H. exfalso. lia.
  - rewrite len_String. pose proof (len_nonneg s) as Hlen.
    destruct (0 <=? LastIndexByteString s c) eqn:Hle.
    + intros _. assert (H0 : 0 <= LastIndexByteString s c) by lia.
      destruct (IH H0) as [Hr Hb]. split; [lia|].
      rewrite byte_at_String by exact H0. exact Hb.
    + destruct (Ascii.eqb_spec x c) as [->|Hne].
      * intros _. split; [lia | reflexivity].
      * intros H. exfalso. lia.
Qed.

(** A string cut at a position that holds the byte [x]. *)
Lemma cut_at_byte (s : string) (i : Z) (x : ascii) :
  0 <= i -> i < len s -> byte_at s i = Some x ->
  s = sub s 0 i +:+ String x (from s (i + 1)).
Proof.
  intros H0 Hlt Hb.
  rewrite <- (sub_whole s) at 1.
  rewrite (sub_split s 0 i (len s)) by lia.
  rewrite (sub_split s i (i + 1) (len s)) by lia.
  rewrite (sub_byte s i x Hb). reflexivity.
Qed.

Lemma string_append_assoc (a b c : string) :
  (a +:+ b) +:+ c = a +:+ (b +:+ c).
Proof.
  induction a as [|x a IH]; [reflexivity|].
  rewrite !append_String, IH. reflexivity.
Qed.

Lemma from_String (x : ascii) (s : string) (n : Z) :
  0 <= n -> from (String x s) (n + 1) = from s n.
Proof.
  intros Hn. unfold from, sub. rewrite len_String.
  replace (Z.to_nat (n + 1)) with (S (Z.to_nat n)) by lia.
  replace (len s + 1 - (n + 1)) with (len s - n) by lia. reflexivity.
Qed.

(** A byte that [IndexByteString] does not find is not in the string. *)
Lemma IndexByteString_none (s : string) (c : ascii) :
  IndexByteString s c < 0 -> has_byte s c = false.
Proof.
  induction s as [|x s IH]; cbn [IndexByteString has_byte]; [reflexivity|].
  destruct (Ascii.eqb x c); [intros H; exfalso; lia|].
  destruct (IndexByteString s c <? 0) eqn:Hlt.
  - intros _. apply IH. lia.
  - intros H. exfalso. lia.
Qed.

Lemma LastIndexByteString_none (s : string) (c : ascii) :
  LastIndexByteString s c < 0 -> has_byte s c = false.
Proof.
  induction s as [|x s IH]; cbn [LastIndexByteString has_byte]; [reflexivity|].
  destruct (0 <=? LastIndexByteString s c) eqn:Hle.
  - intros H. exfalso. lia.
  - destruct (Ascii.eqb x c); [intros H; exfalso; lia|].
    intros _. apply IH. lia.
Qed.

(** The byte does not occur after the index that [LastIndexByteString]
    returns. *)
Lemma LastIndexByteString_last (s : string) (c : ascii) :
  0 <= LastIndexByteString s c ->
  has_byte (from s (LastIndexByteString s c + 1)) c = false.
Proof.
  induction s as [|x s IH]; cbn [LastIndexByteString].
  - intros H. exfalso. lia.
  - destruct (0 <=? LastIndexByteString s c) eqn:Hle.
    + intros _. assert (H0 : 0 <= LastIndexByteString s c) by lia.
      rewrite from_String by lia. exact (IH H0).
    + destruct (Ascii.eqb x c); [|intros H; exfalso; lia].
      intros _. rewrite (from_String x s 0) by lia. rewrite from_0.
      apply LastIndexByteString_none. lia.
Qed.

Lemma sub_String_0 (x : ascii) (s : string) (n : Z) :
  0 <= n -> sub (String x s) 0 (n + 1) = String x (sub s 0 n).
Proof.
  intros Hn. unfold sub.
  replace (Z.to_nat (n + 1 - 0)) with (S (Z.to_nat (n - 0))) by lia.
  reflexivity.
Qed.

(** The byte does not occur before the index that [IndexByteString]
    returns. *)
Lemma IndexByteString_prefix (s : string) (c : ascii) :
  0 <= IndexByteString s c ->
  has_byte (sub s 0 (IndexByteString s c)) c = false.
Proof.
  induction s as [|x s IH]; cbn [IndexByteString].
  - intros H. exfalso. lia.
  - destruct (Ascii.eqb x c) eqn:Hx; [intros _; reflexivity|].
    destruct (IndexByteString s c <? 0) eqn:Hlt; [intros H; exfalso; lia|].
    intros _. assert (H0 : 0 <= IndexByteString s c) by lia.
    rewrite sub_String_0 by exact H0. cbn [has_byte].
    rewrite Hx, (IH H0). reflexivity.
Qed.

Lemma SplitHostPort_tail_inl (hostport host : string) (i j k : Z)
  (h p : string) :
  SplitHostPort_tail hostport host i j k = inl (h, p) ->
  h = host /\ p = from hostport (i + 1)
  /\ has_byte (from hostport j) "[" = false
  /\ has_byte (from hostport k) "]" = false.
Proof.
  unfold SplitHostPort_tail, addrErr.
  destruct (0 <=? IndexByteString (from hostport j) "[") eqn:Hj;
    [discriminate|].
  destruct (0 <=? IndexByteString (from hostport k) "]") eqn:Hk;
    [discriminate|].
  intros [= <- <-]. repeat split; apply IndexByteString_none; lia.
Qed.

(** When [net.SplitHostPort] succeeds, the string it was given is the host,
    a colon and the port, where neither of them holds a colon or a square
    bracket; or it is the host in square brackets, a colon and the port,
    where the host holds no square bracket and the port neither a colon nor
    a square bracket. The colon the string is cut at is therefore its last
    one. *)
Lemma SplitHostPort_inl (hostport h p : string) :
  SplitHostPort hostport = inl (h, p) ->
  (hostport = h +:+ String ":" p /\ plain h /\ plain p)
  \/ (hostport = String "[" (h +:+ String "]" (String ":" p))
      /\ has_byte h "[" = false /\ has_byte h "]" = false /\ plain p).
Proof.
  unfold SplitHostPort, addrErr. cbv zeta.
  destruct (LastIndexByteString hostport ":" <? 0) eqn:Hi; [discriminate|].
  assert (Hi0 : 0 <= LastIndexByteString hostport ":") by lia.
  destruct (LastIndexByteString_found hostport ":" Hi0) as [Hilt Hib].
  pose proof (LastIndexByteString_last hostport ":" Hi0) as Hlast.
  set (i := LastIndexByteString hostport ":") in *. clearbody i.
  pose proof (cut_at_byte hostport i ":" Hi0 Hilt Hib) as Hcut.
  assert (Hplain :
    (if 0 <=? IndexByteString (sub hostport 0 i) ":"
     then @inr (string * string) string tooManyColons
     else SplitHostPort_tail hostport (sub hostport 0 i) i 0 0) = inl (h, p)
    -> hostport = h +:+ String ":" p /\ plain h /\ plain p).
  { destruct (0 <=? IndexByteString (sub hostport 0 i) ":") eqn:Hc;
      [discriminate|].
    intros H. apply SplitHostPort_tail_inl in H.
    destruct H as (-> & -> & Hl & Hr).
    rewrite from_0 in Hl, Hr. rewrite Hcut in Hl, Hr.
    rewrite has_byte_append in Hl, Hr. cbn [has_byte] in Hl, Hr.
    apply orb_false_iff in Hl, Hr.
    destruct Hl as [Hhl Hpl], Hr as [Hhr Hpr]. cbn in Hpl, Hpr.
    split; [exact Hcut|].
    split; (split; [|split]); try assumption.
    apply IndexByteString_none. lia. }
  destruct (byte_at hostport 0) as [c|] eqn:Hb0;
    [|intros H; left; exact (Hplain H)].
  destruct (Ascii.eqb_spec c "[") as [->|Hc].
  - destruct (IndexByteString hostport "]" <? 0) eqn:He; [discriminate|].
    assert (He0 : 0 <= IndexByteString hostport "]") by lia.
    destruct (IndexByteString_found hostport "]" He0) as [Helt Heb].
    pose proof (IndexByteString_prefix hostport "]" He0) as Hfirst.
    set (e := IndexByteString hostport "]") in *. clearbody e.
    destruct (e + 1 =? len hostport); [discriminate|].
    destruct (e + 1 =? i) eqn:Hei.
    + intros H. apply SplitHostPort_tail_inl in H.
      destruct H as (-> & -> & Hl & Hr).
      right. assert (Hie : i = e + 1) by lia.
      assert (He1 : 1 <= e).
      { destruct (Z.eq_dec e 0) as [E0|]; [|lia].
        rewrite E0, Hb0 in Heb. discriminate Heb. }
      assert (H01 : sub hostport 0 1 = String "[" EmptyString)
        by exact (sub_byte hostport 0 "[" Hb0).
      assert (Hse : sub hostport e i = String "]" EmptyString)
        by (rewrite Hie; exact (sub_byte hostport e "]" Heb)).
      assert (Hshape : hostport
        = String "[" (sub hostport 1 e
                      +:+ String "]" (String ":" (from hostport (i + 1))))).
      { rewrite Hcut at 1.
        rewrite (sub_split hostport 0 1 i) by lia.
        rewrite (sub_split hostport 1 e i) by lia.
        rewrite H01, Hse, append_String, append_nil_l, append_String.
        f_equal. rewrite string_append_assoc. reflexivity. }
      split; [exact Hshape|].
      rewrite (sub_split hostport 0 1 e) in Hfirst by lia.
      rewrite H01, append_String, append_nil_l in Hfirst.
      cbn [has_byte] in Hfirst. apply orb_false_iff in Hfirst.
      destruct Hfirst as [_ Hhr].
      rewrite Hshape in Hl, Hr.
      rewrite (from_String "[" _ 0) in Hl by lia. rewrite from_0 in Hl.
      rewrite has_byte_append in Hl. cbn [has_byte] in Hl.
      apply orb_false_iff in Hl. destruct Hl as [Hhl Hpl]. cbn in Hpl.
      rewrite <- Hshape in Hr.
      assert (Hpr : has_byte (from hostport (i + 1)) "]" = false).
      { rewrite Hie. unfold from in Hr |- *.
        rewrite (sub_split hostport (e + 1) (e + 1 + 1) (len hostport)) in Hr
          by lia.
        rewrite has_byte_append in Hr. apply orb_false_iff in Hr.
        exact (proj2 Hr). }
      repeat split; assumption.
    + destruct (byte_at hostport (e + 1)) as [c'|]; [|discriminate].
      destruct (Ascii.eqb_spec c' ":"); [subst; discriminate|].
      destruct c' as [[] [] [] [] [] [] [] []]; discriminate.
  - intros H. left. apply Hplain.
    destruct c as [[] [] [] [] [] [] [] []]; try exact H.
    exfalso. apply Hc. reflexivity.
Qed.

(** X12: the display hostname is always a part of the target it is derived
    from. It is the target itself; or the target is the display hostname, a
    colon and a port, and neither of the two holds a colon or a square
    bracket, so that the target was cut at its last (and only) colon; or the
    target is the display hostname in square brackets, a colon and a port,
    where the display hostname holds no square bracket and the port neither
    a colon nor a square bracket, so that again the cut is at the last colon
    of the target. The display hostname is never longer than the target. *)
Theorem display_hostname_part_of_target (host : string) :
  (hostname_of host = host
   \/ (exists port,
         host = hostname_of host +:+ String ":" port
         /\ plain (hostname_of host) /\ plain port
         /\ LastIndexByteString host ":" = len (hostname_of host))
   \/ (exists port,
         host = String "[" (hostname_of host +:+ String "]" (String ":" port))
         /\ has_byte (hostname_of host) "[" = false
         /\ has_byte (hostname_of host) "]" = false
         /\ plain port
         /\ LastIndexByteString host ":" = len (hostname_of host) + 2))
  /\ len (hostname_of host) <= len host.
Proof.
  assert (H : hostname_of host = host
   \/ (exists port,
         host = hostname_of host +:+ String ":" port
         /\ plain (hostname_of host) /\ plain port
         /\ LastIndexByteString host ":" = len (hostname_of host))
   \/ (exists port,
         host = String "[" (hostname_of host +:+ String "]" (String ":" port))
         /\ has_byte (hostname_of host) "[" = false
         /\ has_byte (hostname_of host) "]" = false
         /\ plain port
         /\ LastIndexByteString host ":" = len (hostname_of host) + 2)).
  { unfold hostname_of.
    destruct (SplitHostPort host) as [[h p]|why] eqn:Hs; [|left; reflexivity].
    right.
    destruct (SplitHostPort_inl host h p Hs)
      as [(Hp & Hh & Hport)|(Hb & Hhl & Hhr & Hport)].
    - left. exists p. repeat split; try assumption; try apply Hh;
        try apply Hport.
      rewrite Hp at 1. apply LastIndexByteString_join. apply Hport.
    - right. exists p. repeat split; try assumption; try apply Hport.
      rewrite Hb at 1.
      replace (String "[" (h +:+ String "]" (String ":" p)))
        with ((String "[" (h +:+ String "]" EmptyString)) +:+ String ":" p).
      + rewrite LastIndexByteString_join by apply Hport.
        rewrite len_String, len_append, len_String.
        change (len EmptyString) with 0. lia.
      + rewrite append_String, string_append_assoc, append_String,
          append_nil_l. reflexivity. }
  split; [exact H|].
  destruct H as [->|[(port & Hp & _)|(port & Hb & _)]]; [lia| |].
  - rewrite Hp at 2. rewrite len_append.
    pose proof (len_nonneg (String ":" port)). lia.
  - rewrite Hb at 2. rewrite len_String, len_append.
    pose proof (len_nonneg (String "]" (String ":" port))). lia.
Qed.

Lemma IndexByteString_first (a b : string) (c : ascii) :
  has_byte a c = false -> IndexByteString (a +:+ String c b) c = len a.
Proof.
  induction a as [|x a IH]; intros H.
  - rewrite append_nil_l. cbn [IndexByteString].
    rewrite Ascii.eqb_refl. reflexivity.
  - cbn [has_byte] in H. apply orb_false_iff in H. destruct H as [Hx Ha].
    rewrite append_String. cbn [IndexByteString]. rewrite Hx, (IH Ha).
    rewrite len_String. pose proof (len_nonneg a).
    destruct (len a <? 0) eqn:Hlt; [lia | reflexivity].
Qed.

(** A host in square brackets, with colons of its own or not, and a plain
    port split into the host without the brackets and the port. *)
Lemma SplitHostPort_brackets (h p : string) :
  has_byte h "[" = false -> has_byte h "]" = false -> plain p ->
  SplitHostPort (String "[" (h +:+ String "]" (String ":" p))) = inl (h, p).
Proof.
  intros Hhl Hhr (Hpc & Hpl & Hpr).
  set (hostport := String "[" (h +:+ String "]" (String ":" p))).
  pose proof (len_nonneg h) as Hlh. pose proof (len_nonneg p) as Hlp.
  assert (Hform : hostport = String "[" (h +:+ String "]" EmptyString)
                             +:+ String ":" p).
  { unfold hostport. rewrite append_String, string_append_assoc.
    reflexivity. }
  assert (Hlen : len hostport = len h + 3 + len p).
  { unfold hostport. rewrite len_String, len_append, !len_String. lia. }
  assert (Hi : LastIndexByteString hostport ":" = len h + 2).
  { rewrite Hform, (LastIndexByteString_join _ p Hpc).
    rewrite len_String, len_append, len_String. unfold len at 2.
    cbn [String.length]. lia. }
  assert (He : IndexByteString hostport "]" = len h + 1).
  { unfold hostport. cbn [IndexByteString].
    change (Ascii.eqb "[" "]") with false. cbv iota.
    rewrite (IndexByteString_first h (String ":" p) "]" Hhr).
    destruct (len h <? 0) eqn:Hlt; [lia | reflexivity]. }
  assert (Hfrom1 : from hostport 1 = h +:+ String "]" (String ":" p)).
  { unfold hostport. rewrite (from_String "[" _ 0) by lia. apply from_0. }
  assert (Hfrom2 : from hostport (len h + 1 + 1) = String ":" p).
  { unfold hostport. rewrite from_String by lia.
    replace (h +:+ String "]" (String ":" p))
      with ((h +:+ String "]" EmptyString) +:+ String ":" p)
      by (rewrite string_append_assoc; reflexivity).
    replace (len h + 1) with (len (h +:+ String "]" EmptyString))
      by (rewrite len_append; reflexivity).
    apply from_suffix. }
  assert (Hfrom3 : from hostport (len h + 2 + 1) = p).
  { rewrite Hform.
    replace (String "[" (h +:+ String "]" EmptyString) +:+ String ":" p)
      with ((String "[" (h +:+ String "]" EmptyString) +:+ ":") +:+ p)
      by (rewrite string_append_assoc; reflexivity).
    replace (len h + 2 + 1)
      with (len (String "[" (h +:+ String "]" EmptyString) +:+ ":")).
    - apply from_suffix.
    - rewrite len_append, len_String, len_append. unfold len at 2 3.
      cbn [String.length]. lia. }
  assert (Hsub : sub hostport 1 (len h + 1) = h).
  { unfold hostport, sub.
    replace (Z.to_nat 1) with 1%nat by lia.
    replace (Z.to_nat (len h + 1 - 1)) with (String.length h)
      by (unfold len; lia).
    cbn [String.substring]. apply substring_prefix. }
  unfold SplitHostPort. cbv zeta. rewrite Hi, He.
  destruct (len h + 2 <? 0) eqn:H1; [lia|].
  change (byte_at hostport 0) with (Some "["%char). cbv iota.
  destruct (len h + 1 <? 0) eqn:H2; [lia|].
  rewrite Hlen.
  destruct (len h + 1 + 1 =? len h + 3 + len p) eqn:H3; [lia|].
  destruct (len h + 1 + 1 =? len h + 2) eqn:H4; [|lia].
  unfold SplitHostPort_tail. rewrite Hfrom1, Hfrom2, Hfrom3, Hsub.
  rewrite (IndexByteString_absent (h +:+ String "]" (String ":" p)) "[").
  - rewrite (IndexByteString_absent (String ":" p) "]").
    + reflexivity.
    + cbn [has_byte]. exact Hpr.
  - rewrite has_byte_append. cbn [has_byte]. rewrite Hhl, Hpl. reflexivity.
Qed.

(** X13: a target written as a bracketed host, a colon and a port (the form
    of an IPv6 address with a port) displays as the host without its
    brackets, colons included. *)
Theorem bracketed_host_displays_without_brackets (h p : string) :
  has_byte h "[" = false -> has_byte h "]" = false -> plain p ->
  hostname_of (String "[" (h +:+ String "]" (String ":" p))) = h.
Proof.
  intros Hl Hr Hp. unfold hostname_of.
  rewrite (SplitHostPort_brackets h p Hl Hr Hp). reflexivity.
Qed.

(** ** Further properties of the orchestrator *)

Lemma sleeps_out_host_loop (e : simulatorInfo) (extIP : IP)
  (hosts : list string) :
  forall (prev : string) (st : state),
    sleeps (out (host_loop e extIP prev hosts st))
      = replicate (length hosts) (interval e).
Proof.
  induction hosts as [|host hosts IH]; intros prev st.
  - reflexivity.
  - rewrite host_loop_cons, out_bind, out_host_step, !sleeps_app, IH.
    destruct (String.eqb prev (hostname_of host)); reflexivity.
Qed.

(** X1: an entry sleeps once for the pause of the run, before it asks for
    its targets, and then once per target for its own interval: as many
    sleeps as targets plus one, and none when printing. *)
Theorem entry_sleeps_once_per_target (extIP : IP) (gap : Duration)
  (e : simulatorInfo) (st : state) :
  sleeps (out (run_entry extIP gap e st))
    = gap :: replicate (length (fst (hosts_of e (slept gap st)))) (interval e).
Proof.
  rewrite out_run_entry, !sleeps_app, sleeps_msgs, sleeps_out_host_loop.
  unfold failure_lines.
  destruct (snd (hosts_of e (slept gap st))); cbn [sleeps app]; rewrite app_nil_r;
    reflexivity.
Qed.

Lemma calls_msgs (module : string) (msgs : list string) :
  filter is_call (map (EMsg module) msgs) = [].
Proof. induction msgs as [|m msgs IH]; [reflexivity | exact IH]. Qed.

Lemma calls_host_loop (e : simulatorInfo) (extIP : IP) (hosts : list string) :
  forall (prev : string) (st : state),
    filter is_call (out (host_loop e extIP prev hosts st))
      = map (ESimulate (name e) extIP) hosts.
Proof.
  induction hosts as [|host hosts IH]; intros prev st.
  - reflexivity.
  - rewrite host_loop_cons, out_bind, out_host_step, filter_app, IH.
    destruct (String.eqb prev (hostname_of host)); reflexivity.
Qed.

(** X2: the calls an entry makes to its simulator are one call of [Hosts]
    followed by one call of [Simulate] per target, in the order of the
    targets; with an empty target list, the call of [Hosts] alone. *)
Theorem entry_calls_hosts_then_simulate (extIP : IP) (gap : Duration)
  (e : simulatorInfo) (st : state) :
  filter is_call (out (run_entry extIP gap e st))
    = EHosts (name e) :: map (ESimulate (name e) extIP) (fst (hosts_of e (slept gap st))).
Proof.
  rewrite out_run_entry, !filter_app, calls_msgs, calls_host_loop.
  unfold failure_lines.
  destruct (snd (hosts_of e (slept gap st))); cbn; rewrite app_nil_r; reflexivity.
Qed.

Lemma hosts_run_entry (extIP : IP) (gap : Duration) (e : simulatorInfo)
  (st : state) :
  filter is_hosts (out (run_entry extIP gap e st)) = [EHosts (name e)].
Proof.
  rewrite out_run_entry, !filter_app.
  assert (Hm : forall l, filter is_hosts (map (EMsg (name e)) l) = []).
  { induction l as [|m l IH]; [reflexivity | exact IH]. }
  assert (Hl : forall hosts prev st',
             filter is_hosts (out (host_loop e extIP prev hosts st')) = []).
  { induction hosts as [|host hosts IH]; intros prev st'; [reflexivity|].
    rewrite host_loop_cons, out_bind, out_host_step, filter_app, IH.
    destruct (String.eqb prev (hostname_of host)); reflexivity. }
  rewrite Hm, Hl. unfold failure_lines.
  destruct (snd (hosts_of e (slept gap st))); reflexivity.
Qed.

Lemma hosts_run_entries (extIP : IP) (gap : Duration)
  (l : list simulatorInfo) :
  forall st : state,
    filter is_hosts (out (run_entries extIP gap l st))
      = map (fun e => EHosts (name e)) l.
Proof.
  induction l as [|e l IH]; intros st; [reflexivity|].
  destruct (run_entries_cons extIP gap e l st) as [-> _].
  rewrite filter_app, hosts_run_entry, IH. reflexivity.
Qed.

(** X3: [run] asks every entry of its slice for its targets exactly once, in
    the order of the slice, whatever the entries answer; on an empty slice it
    prints the welcome, the header and the goodbye and calls nothing. *)
Theorem run_calls_hosts_once_per_entry (simulators : slice) (extIP : IP)
  (gap : Duration) (st : state) :
  filter is_hosts (out (run simulators extIP gap st))
    = map (fun e => EHosts (name e)) (elems (mem st) simulators)
  /\ (elems (mem st) simulators = [] ->
      out (run simulators extIP gap st) = [EWelcome extIP; EHeader; EGoodbay]).
Proof.
  split.
  - rewrite out_run, !filter_app, hosts_run_entries.
    change (filter is_hosts [EWelcome extIP; EHeader]) with (@nil event).
    change (filter is_hosts [EGoodbay]) with (@nil event).
    rewrite app_nil_r. reflexivity.
  - intros H. rewrite out_run, H. reflexivity.
Qed.

Lemma msgs_host_loop (e : simulatorInfo) (extIP : IP) (hosts : list string) :
  forall (prev : string) (st : state),
    filter is_msg (out (host_loop e extIP prev hosts st))
      = map (announcement e) (collapse prev (map hostname_of hosts)).
Proof.
  induction hosts as [|host hosts IH]; intros prev st.
  - reflexivity.
  - rewrite host_loop_cons, out_bind, out_host_step, filter_app, IH.
    cbn [map collapse]. rewrite map_app.
    destruct (String.eqb prev (hostname_of host)); reflexivity.
Qed.

Lemma length_collapse (l : list string) :
  forall prev : string, (length (collapse prev l) <= length l)%nat.
Proof.
  induction l as [|x l IH]; intros prev; cbn [collapse length]; [lia|].
  rewrite length_app. specialize (IH x).
  destruct (String.eqb prev x); cbn [length]; lia.
Qed.

Lemma collapse_constant (h : string) (l : list string) :
  Forall (fun x => x = h) l -> collapse h l = [].
Proof.
  induction 1 as [|x l Hx _ IH]; [reflexivity|].
  cbn [collapse]. subst x. rewrite String.eqb_refl, IH. reflexivity.
Qed.

(** X4: the progress lines of the target loop are the display hostnames of
    the targets with every run of equal consecutive hostnames collapsed to
    its first element, in order; so there are never more progress lines than
    targets, and targets that all share one display hostname, different from
    the one before the loop, give a single progress line. *)
Theorem progress_lines_collapse_repeats (e : simulatorInfo) (extIP : IP)
  (prev : string) (hosts : list string) (st : state) :
  filter is_msg (out (host_loop e extIP prev hosts st))
    = map (announcement e) (collapse prev (map hostname_of hosts))
  /\ (length (filter is_msg (out (host_loop e extIP prev hosts st)))
      <= length hosts)%nat
  /\ forall (h host : string) (hosts' : list string),
       hosts = host :: hosts' ->
       Forall (fun x => hostname_of x = h) hosts ->
       h <> prev ->
       filter is_msg (out (host_loop e extIP prev hosts st))
         = [announcement e h].
Proof.
  rewrite msgs_host_loop. split; [reflexivity|]. split.
  - rewrite length_map. etransitivity; [apply length_collapse|].
    rewrite length_map. reflexivity.
  - intros h host hosts' -> Hall Hne.
    apply Forall_cons in Hall. destruct Hall as [Hh Hall].
    cbn [map collapse]. rewrite Hh.
    destruct (String.eqb_spec prev h) as [Heq|_].
    + exfalso. apply Hne. symmetry. exact Heq.
    + rewrite collapse_constant; [reflexivity|].
      apply Forall_fmap. exact Hall.
Qed.

Lemma world_host_loop (e : simulatorInfo) (extIP : IP) (hosts : list string) :
  forall (prev : string) (st : state),
    world (post (host_loop e extIP prev hosts st))
      = fold_left (fun w host =>
                     elapse (interval e) (Simulate (s e) extIP host w))
                  hosts (world st).
Proof.
  induction hosts as [|host hosts IH]; intros prev st.
  - reflexivity.
  - rewrite host_loop_cons, post_bind, IH. cbn [fold_left].
    unfold host_step. rewrite !post_bind.
    destruct (String.eqb prev (hostname_of host)); reflexivity.
Qed.

Lemma world_run_entry (extIP : IP) (gap : Duration) (e : simulatorInfo)
  (st : state) :
  world (post (run_entry extIP gap e st))
    = fold_left (fun w host =>
                   elapse (interval e) (Simulate (s e) extIP host w))
        (fst (hosts_of e (slept gap st)))
        (snd (Hosts (s e) (world (slept gap st)))).
Proof.
  unfold run_entry. rewrite !post_bind.
  cbn [printMsg emit post]. rewrite world_host_loop.
  unfold hosts_of, slept.
  cbn [Sleep emit post call_Hosts val world with_world].
  destruct (Hosts (s e) (elapse gap (world st))) as [[hosts [err|]] w'];
    reflexivity.
Qed.

(** ** Fast and normal mode side by side *)

Lemma erase_msgs (module : string) (msgs : list string) :
  map erase_sleep (map (EMsg module) msgs) = map (EMsg module) msgs.
Proof.
  induction msgs as [|m msgs IH]; [reflexivity|].
  cbn [map erase_sleep]. f_equal. exact IH.
Qed.

Lemma host_loop_erase (e : simulatorInfo) (extIP : IP) (d : Duration)
  (hosts : list string) :
  forall (prev : string) (st1 st2 : state),
    map erase_sleep (out (host_loop (set_interval d e) extIP prev hosts st1))
      = map erase_sleep (out (host_loop e extIP prev hosts st2)).
Proof.
  induction hosts as [|host hosts IH]; intros prev st1 st2.
  - reflexivity.
  - rewrite !host_loop_cons, !out_bind, !out_host_step, !map_app.
    rewrite !val_host_step.
    rewrite (IH (hostname_of host) _
               (post (host_step e extIP prev host st2))).
    destruct (String.eqb prev (hostname_of host)); reflexivity.
Qed.

Section TimeBlind.

(** Worlds that differ only by the time that has passed, and simulators
    that do not look at it. *)
Variable R : World -> World -> Prop.
Hypothesis R_elapse :
  forall (d1 d2 : Duration) (w1 w2 : World),
    R w1 w2 -> R (elapse d1 w1) (elapse d2 w2).

Lemma fold_simulate_blind (x : Simulator World) (extIP : IP)
  (d1 d2 : Duration) (hosts : list string) :
  blind R x ->
  forall w1 w2 : World,
    R w1 w2 ->
    R (fold_left (fun w host => elapse d1 (Simulate x extIP host w)) hosts w1)
      (fold_left (fun w host => elapse d2 (Simulate x extIP host w)) hosts w2).
Proof.
  intros Hx. induction hosts as [|host hosts IH]; intros w1 w2 Hw.
  - exact Hw.
  - cbn [fold_left]. apply IH. apply R_elapse.
    exact (proj2 (proj2 (Hx w1 w2 Hw)) extIP host).
Qed.

Lemma run_entry_erase (extIP : IP) (g1 g2 d : Duration) (e : simulatorInfo)
  (st1 st2 : state) :
  blind R (s e) ->
  R (world st1) (world st2) ->
  map erase_sleep (out (run_entry extIP g1 (set_interval d e) st1))
    = map erase_sleep (out (run_entry extIP g2 e st2))
  /\ R (world (post (run_entry extIP g1 (set_interval d e) st1)))
       (world (post (run_entry extIP g2 e st2))).
Proof.
  intros Hx Hw.
  assert (Hw' : R (elapse g1 (world st1)) (elapse g2 (world st2)))
    by (apply R_elapse; exact Hw).
  destruct (Hx _ _ Hw') as (Hhosts & Hafter & _).
  split.
  - rewrite !out_run_entry, !map_app, !erase_msgs.
    unfold hosts_of, failure_lines, slept.
    cbn [s name infoHeaders set_interval world with_world].
    rewrite Hhosts.
    rewrite (host_loop_erase e extIP d _ _ _
               (with_world st2 (snd (Hosts (s e) (elapse g2 (world st2)))))).
    destruct (snd (fst (Hosts (s e) (elapse g2 (world st2))))); reflexivity.
  - rewrite !world_run_entry. unfold hosts_of, slept.
    cbn [s interval set_interval world with_world].
    rewrite Hhosts. apply fold_simulate_blind; assumption.
Qed.

Lemma run_entries_erase (extIP : IP) (g1 g2 d : Duration)
  (l : list simulatorInfo) :
  Forall (fun e => blind R (s e)) l ->
  forall st1 st2 : state,
    R (world st1) (world st2) ->
    map erase_sleep
        (out (run_entries extIP g1 (map (set_interval d) l) st1))
      = map erase_sleep (out (run_entries extIP g2 l st2))
    /\ R (world (post (run_entries extIP g1 (map (set_interval d) l) st1)))
         (world (post (run_entries extIP g2 l st2))).
Proof.
  induction 1 as [|e l He _ IH]; intros st1 st2 Hw.
  - split; [reflexivity | exact Hw].
  - cbn [map].
    destruct (run_entries_cons extIP g1 (set_interval d e)
                (map (set_interval d) l) st1) as [-> ->].
    destruct (run_entries_cons extIP g2 e l st2) as [-> ->].
    destruct (run_entry_erase extIP g1 g2 d e st1 st2 He Hw) as [Ho Hw'].
    destruct (IH _ _ Hw') as [Ho' Hw''].
    rewrite !map_app, Ho, Ho'. split; [reflexivity | exact Hw''].
Qed.

Lemma blind_selection (names : list string) :
  blind R NewC2DNS -> blind R NewDGA -> blind R NewPortScan ->
  blind R NewTunnel ->
  Forall (fun e => blind R (s e)) (selection false names).
Proof.
  intros H1 H2 H3 H4. apply Forall_forall. intros e He.
  unfold selection in He. apply list_elem_of_filter in He.
  destruct He as [_ He]. unfold catalog in He.
  rewrite !elem_of_cons, elem_of_nil in He.
  destruct He as [->|[->|[->|[->|He]]]]; [assumption..|destruct He].
Qed.

(** X5: for simulators that do not depend on the time at which they are
    called, the fast flag changes nothing but the durations of the sleeps.
    [R] relates the worlds that differ only by the time that has passed:
    sleeping, for whatever durations, keeps two worlds related, and each of
    the four simulators lists the same targets and keeps the worlds related
    when called in related worlds. Then, started from the same world with
    the same interface and arguments, the fast and the normal command return
    the same error, print the same lines and make the same calls in the same
    order, sleep at the same points, and leave related worlds and the same
    [simulatorNames]. *)
Theorem fast_mode_changes_only_sleeps (ifaceName : string)
  (args : list string) (w : World) :
  R w w ->
  blind R NewC2DNS -> blind R NewDGA -> blind R NewPortScan ->
  blind R NewTunnel ->
  let rf := RunE true ifaceName args (init w) in
  let rn := RunE false ifaceName args (init w) in
  val rf = val rn
  /\ map erase_sleep (out rf) = map erase_sleep (out rn)
  /\ R (world (post rf)) (world (post rn))
  /\ simulatorNames (post rf) = simulatorNames (post rn).
Proof.
  intros Hw H1 H2 H3 H4. cbv zeta.
  destruct (check_args (simulatorNames (init w)) args) as [err|] eqn:Hchk.
  { rewrite !(RunE_rejected _ _ _ _ _ Hchk). repeat split. exact Hw. }
  destruct (ExternalIP ifaceName w) as [extIP|err] eqn:Hip.
  - destruct (RunE_runs true ifaceName args w extIP Hchk Hip)
      as (h1 & _ & Hv1 & Ho1 & Hp1).
    destruct (RunE_runs false ifaceName args w extIP Hchk Hip)
      as (h2 & _ & Hv2 & Ho2 & Hp2).
    cbv zeta in *. rewrite Hv1, Hv2, Ho1, Ho2, Hp1, Hp2.
    set (st1 := State h1 (requested args) w).
    set (st2 := State h2 (requested args) w).
    change (selection true (requested args))
      with (map (set_interval 0) (selection false (requested args))).
    destruct (run_entries_erase extIP (gap_of true) (gap_of false) 0
                (selection false (requested args))
                (blind_selection (requested args) H1 H2 H3 H4)
                st1 st2 Hw)
      as [Ho Hw'].
    split; [reflexivity|]. split; [|split; [exact Hw'|]].
    + rewrite !map_app, Ho. reflexivity.
    + destruct (run_entries_store extIP (gap_of true)
                  (map (set_interval 0) (selection false (requested args)))
                  st1) as [_ ->].
      destruct (run_entries_store extIP (gap_of false)
                  (selection false (requested args)) st2) as [_ ->].
      reflexivity.
  - rewrite !(RunE_no_address _ _ _ _ _ Hchk Hip). repeat split. exact Hw.
Qed.

End TimeBlind.

(** X6: started from [init], the command returns an error exactly when some
    argument is not the name of a catalog entry or the interface has no
    address; once the run is started, nothing an entry does (a failing
    [Hosts] included) makes the command fail. *)
Theorem command_fails_only_before_run (fast : bool) (ifaceName : string)
  (args : list string) (w : World) :
  val (RunE fast ifaceName args (init w)) = None
  <-> (forall arg, arg ∈ args -> arg ∈ map name catalog)
      /\ exists extIP : IP, ExternalIP ifaceName w = inl extIP.
Proof.
  destruct (check_args (simulatorNames (init w)) args) as [err|] eqn:Hchk.
  { rewrite (RunE_rejected _ _ _ _ _ Hchk). cbn [val]. split; [discriminate|].
    intros [Hknown _]. apply check_args_None in Hknown.
    cbn [simulatorNames init] in Hchk. rewrite names_of_catalog in Hknown.
    rewrite Hknown in Hchk. discriminate Hchk. }
  pose proof (proj1 (check_args_None _ _) Hchk) as Hknown.
  destruct (ExternalIP ifaceName w) as [extIP|err] eqn:Hip.
  - destruct (RunE_runs fast ifaceName args w extIP Hchk Hip)
      as (h & _ & Hv & _). cbv zeta in Hv. rewrite Hv.
    split; [|reflexivity]. intros _. split; [exact Hknown|].
    exists extIP. reflexivity.
  - rewrite (RunE_no_address _ _ _ _ _ Hchk Hip). cbn [val].
    split; [discriminate|]. intros [_ [extIP Hx]]. discriminate Hx.
Qed.


(** ** Arguments, one command after another *)

Lemma check_args_first (names pre post : list string) (arg : string) :
  (forall a, a ∈ pre -> a ∈ names) -> ~ (arg ∈ names) ->
  check_args names (pre ++ arg :: post)
    = Some (Sprintf "simulator %s not recognized" arg).
Proof using.
  intros Hpre Hnot. induction pre as [|a pre IH].
  - cbn [app check_args].
    destruct (StringsContains names arg) eqn:Hin; [|reflexivity].
    exfalso. apply Hnot. apply StringsContains_spec. exact Hin.
  - cbn [app check_args].
    assert (Ha : StringsContains names a = true).
    { apply StringsContains_spec. apply Hpre. apply elem_of_cons.
      left. reflexivity. }
    rewrite Ha. cbn [negb]. apply IH.
    intros x Hx. apply Hpre. apply elem_of_cons. right. exact Hx.
Qed.

(** X7: the arguments are checked in order and the command stops at the
    first one that is not among [simulatorNames]: the error names that
    argument, whatever follows it, nothing is printed or called and the
    state is left as it was. *)
Theorem first_unknown_argument_is_reported (fast : bool) (ifaceName : string)
  (known rest : list string) (arg : string) (st : state) :
  (forall a, a ∈ known -> a ∈ simulatorNames st) ->
  ~ (arg ∈ simulatorNames st) ->
  RunE fast ifaceName (known ++ arg :: rest) st
    = Res (Some (Sprintf "simulator %s not recognized" arg)) [] st.
Proof.
  intros Hpre Hnot. apply RunE_rejected.
  apply check_args_first; assumption.
Qed.

Lemma simulatorNames_after_RunE (fast : bool) (ifaceName : string)
  (args : list string) (w : World) :
  (forall arg, arg ∈ args -> arg ∈ map name catalog) ->
  simulatorNames (post (RunE fast ifaceName args (init w))) = requested args.
Proof.
  intros Hknown.
  assert (Hchk : check_args (simulatorNames (init w)) args = None)
    by (apply check_args_None; exact Hknown).
  destruct (ExternalIP ifaceName w) as [extIP|err] eqn:Hip.
  - destruct (RunE_runs fast ifaceName args w extIP Hchk Hip)
      as (h & _ & _ & _ & Hp). cbv zeta in Hp. rewrite Hp.
    destruct (run_entries_store extIP (gap_of fast)
                (selection fast (requested args))
                (State h (requested args) w)) as [_ ->].
    reflexivity.
  - rewrite (RunE_no_address _ _ _ _ _ Hchk Hip). reflexivity.
Qed.

(** X8: a command with arguments overwrites [simulatorNames] with them, and
    the next command of the same process is checked against that list, not
    against the catalog: after a first command on known names [args], a
    second command is rejected at its first argument outside [args], even
    when that argument is the name of a catalog entry. *)
Theorem second_command_checked_against_first (fast fast' : bool)
  (ifaceName ifaceName' : string) (args known rest : list string)
  (arg : string) (w : World) :
  args <> [] ->
  (forall a, a ∈ args -> a ∈ map name catalog) ->
  (forall a, a ∈ known -> a ∈ args) ->
  ~ (arg ∈ args) ->
  let st1 := post (RunE fast ifaceName args (init w)) in
  simulatorNames st1 = args
  /\ RunE fast' ifaceName' (known ++ arg :: rest) st1
     = Res (Some (Sprintf "simulator %s not recognized" arg)) [] st1.
Proof.
  intros Hne Hcat Hknown Hnot. cbv zeta.
  assert (Hnames : simulatorNames (post (RunE fast ifaceName args (init w)))
                   = args).
  { rewrite (simulatorNames_after_RunE fast ifaceName args w Hcat).
    destruct args as [|a args]; [contradiction | reflexivity]. }
  split; [exact Hnames|].
  apply RunE_rejected. rewrite Hnames.
  apply check_args_first; assumption.
Qed.

(** ** The selection as a set of entries *)

Lemma NoDup_names_of_catalog : NoDup (map name catalog).
Proof.
  rewrite names_of_catalog.
  repeat (apply NoDup_cons; split;
          [rewrite ?elem_of_cons, elem_of_nil;
           intros H; repeat (destruct H as [H|H]; [discriminate H|]); exact H|]).
  apply NoDup_nil. exact I.
Qed.

(** X9: however often a name is repeated among the requested names, the
    selector returns its entry once: the names of the selected entries are
    pairwise different, and there are at most four of them. *)
Theorem selection_has_no_duplicates (names : list string) (w : World) :
  let r := selectSimulators names (init w) in
  NoDup (map name (elems (mem (post r)) (val r)))
  /\ (length (elems (mem (post r)) (val r)) <= 4)%nat.
Proof.
  cbv zeta.
  destruct (selectSimulators_spec names (init w) (catalog_in_place_init w))
    as (Hel & _). cbv zeta in Hel. rewrite Hel.
  pose proof (sublist_filter
                (fun e : simulatorInfo => StringsContains names (name e))
                catalog) as Hsub.
  split.
  - eapply sublist_NoDup; [exact NoDup_names_of_catalog|].
    apply fmap_sublist. exact Hsub.
  - apply sublist_length in Hsub. exact Hsub.
Qed.

(** ** What the command leaves alone in memory *)

Lemma prefix_insert_ge (h0 h : heap) (a : addr) (arr : list simulatorInfo) :
  h0 `prefix_of` h -> (length h0 <= a)%nat -> h0 `prefix_of` <[a := arr]> h.
Proof.
  intros [k ->] Hle. rewrite insert_app_r_alt by exact Hle.
  exists (<[(a - length h0)%nat := arr]> k). reflexivity.
Qed.

Lemma quiet_trans {A B : Type} (st : state) (r1 : res A) (r2 : res B) :
  quiet st r1 -> quiet (post r1) r2 ->
  out r2 = [] /\ world (post r2) = world st
  /\ simulatorNames (post r2) = simulatorNames st.
Proof.
  intros (_ & Hw1 & Hn1) (Ho2 & Hw2 & Hn2).
  rewrite Hw2, Hn2. auto.
Qed.

Lemma append_frame (h0 : heap) (sl : slice) (x : simulatorInfo) (st : state) :
  h0 `prefix_of` mem st -> fresh_slice (length h0) sl ->
  let r := append sl x st in
  h0 `prefix_of` mem (post r)
  /\ fresh_slice (length h0) (val r)
  /\ quiet st r.
Proof.
  intros Hpre Hfresh.
  assert (Hgrow :
    let r := Res (Slice (Some (length (mem st))) (S (slen sl)) (growcap (scap sl)))
               [] (with_mem st (mem st ++ [elems (mem st) sl ++ [x]])) in
    h0 `prefix_of` mem (post r) /\ fresh_slice (length h0) (val r)
    /\ quiet st r).
  { cbv zeta. cbn [post val mem with_mem]. split; [|split].
    - apply prefix_app_r. exact Hpre.
    - unfold fresh_slice. cbn [array]. apply prefix_length. exact Hpre.
    - repeat split. }
  unfold append. unfold fresh_slice in Hfresh.
  destruct (array sl) as [a|] eqn:Harr; [|exact Hgrow].
  destruct (Nat.ltb (slen sl) (scap sl)); [|exact Hgrow].
  cbn [post val mem with_mem]. split; [|split].
  - apply prefix_insert_ge; assumption.
  - unfold fresh_slice. cbn [array]. exact Hfresh.
  - repeat split.
Qed.

Lemma select_loop_frame (names : list string) (h0 : heap)
  (l : list simulatorInfo) :
  forall (sl : slice) (st : state),
    h0 `prefix_of` mem st -> fresh_slice (length h0) sl ->
    let r := select_loop names l sl st in
    h0 `prefix_of` mem (post r)
    /\ fresh_slice (length h0) (val r)
    /\ quiet st r.
Proof.
  induction l as [|e l IH]; intros sl st Hpre Hfresh.
  - repeat split; assumption.
  - rewrite select_loop_cons. cbv zeta. rewrite val_bind, post_bind.
    assert (Hstep :
      h0 `prefix_of` mem (post (select_step names sl e st))
      /\ fresh_slice (length h0) (val (select_step names sl e st))
      /\ quiet st (select_step names sl e st)).
    { unfold select_step. destruct (StringsContains names (name e)).
      - apply append_frame; assumption.
      - repeat split; assumption. }
    destruct Hstep as (Hpre1 & Hfresh1 & Hq1).
    destruct (IH _ _ Hpre1 Hfresh1) as (Hpre2 & Hfresh2 & Hq2).
    split; [exact Hpre2|]. split; [exact Hfresh2|].
    apply quiet_bind; assumption.
Qed.

Lemma selectSimulators_frame (names : list string) (st : state) :
  let r := selectSimulators names st in
  mem st `prefix_of` mem (post r)
  /\ fresh_slice (length (mem st)) (val r)
  /\ quiet st r.
Proof.
  unfold selectSimulators. cbv zeta. rewrite val_bind, post_bind.
  cbn [range val post].
  assert (Hpre : mem st `prefix_of` mem st) by (exists []; symmetry; apply app_nil_r).
  assert (Hnil : fresh_slice (length (mem st)) nil_slice) by exact I.
  destruct (select_loop_frame names (mem st) (elems (mem st) allsimualtors)
              nil_slice st Hpre Hnil) as (H1 & H2 & H3).
  split; [exact H1|]. split; [exact H2|].
  apply quiet_bind; [repeat split | exact H3].
Qed.

(** X10: in any state of the process, the selector prints nothing, calls
    nothing, leaves the world and [simulatorNames] alone, and leaves every
    array that was in memory before the call exactly as it was: what it
    writes, it writes into arrays it has allocated itself. *)
Theorem selector_only_allocates (names : list string) (st : state) :
  let r := selectSimulators names st in
  mem st `prefix_of` mem (post r)
  /\ out r = []
  /\ world (post r) = world st
  /\ simulatorNames (post r) = simulatorNames st.
Proof.
  destruct (selectSimulators_frame names st) as (Hpre & _ & Hq).
  cbv zeta. split; [exact Hpre | exact Hq].
Qed.

Lemma zero_intervals_frame (h0 : heap) (sl : slice) (st : state) :
  h0 `prefix_of` mem st -> fresh_slice (length h0) sl ->
  h0 `prefix_of` mem (post (zero_intervals sl st))
  /\ quiet st (zero_intervals sl st).
Proof.
  intros Hpre Hfresh. unfold zero_intervals.
  generalize (seq 0 (slen sl)). intros l. revert st Hpre.
  induction l as [|i l IH]; intros st Hpre.
  - split; [exact Hpre | repeat split].
  - rewrite forM__cons, post_bind.
    assert (Hstep :
      h0 `prefix_of` mem (post (store_interval sl i 0 st))
      /\ quiet st (store_interval sl i 0 st)).
    { unfold store_interval. unfold fresh_slice in Hfresh.
      destruct (array sl) as [a|].
      - cbn [post mem with_mem]. split; [|repeat split].
        apply prefix_insert_ge; assumption.
      - split; [exact Hpre | repeat split]. }
    destruct Hstep as (Hpre1 & Hq1).
    destruct (IH _ Hpre1) as (Hpre2 & Hq2).
    split; [exact Hpre2|]. apply quiet_bind; assumption.
Qed.

(** X11: in any state of the process and for any flags and arguments, the
    command leaves every array that was in memory before it exactly as it
    was, the array of the catalog among them: the selection and the stores
    of the fast mode go to arrays allocated by the command itself. *)
Theorem command_only_allocates (fast : bool) (ifaceName : string)
  (args : list string) (st : state) :
  mem st `prefix_of` mem (post (RunE fast ifaceName args st)).
Proof.
  assert (Hrefl : forall h : heap, h `prefix_of` h)
    by (intros h; exists []; symmetry; apply app_nil_r).
  unfold RunE. rewrite post_bind. cbn [get_simulatorNames val post].
  destruct (check_args (simulatorNames st) args); [apply Hrefl|].
  rewrite post_bind.
  set (st1 := post ((if Nat.ltb 0 (length args) then set_simulatorNames args
                     else ret tt) st)).
  assert (Hm1 : mem st1 = mem st) by (unfold st1; destruct args; reflexivity).
  rewrite post_bind. cbn [call_ExternalIP val post].
  destruct (ExternalIP ifaceName (world st1)) as [extIP|err];
    [|cbn [ret post]; rewrite Hm1; apply Hrefl].
  rewrite !post_bind. cbn [get_simulatorNames val post ret].
  destruct (selectSimulators_frame (simulatorNames st1) st1)
    as (Hpre & Hfresh & _). cbv zeta in Hpre, Hfresh.
  set (r2 := selectSimulators (simulatorNames st1) st1) in *.
  rewrite Hm1 in Hpre, Hfresh.
  rewrite post_run.
  match goal with
  | |- _ `prefix_of` mem (post (run_entries ?a ?g ?l ?st')) =>
      destruct (run_entries_store a g l st') as [-> _]
  end.
  destruct fast.
  - rewrite post_bind. cbn [ret post].
    exact (proj1 (zero_intervals_frame (mem st) (val r2) (post r2)
                    Hpre Hfresh)).
  - exact Hpre.
Qed.


(** ** The whole command, seen from outside *)

Lemma interval_catalog (e : simulatorInfo) :
  e ∈ catalog -> interval e = 0 \/ interval e = 500 * Millisecond.
Proof.
  unfold catalog. rewrite !elem_of_cons, elem_of_nil.
  intros [->|[->|[->|[->|H]]]]; cbn [interval]; auto. destruct H.
Qed.

Lemma interval_selection (fast : bool) (names : list string)
  (e : simulatorInfo) :
  e ∈ selection fast names ->
  interval e = 0 \/ interval e = 500 * Millisecond.
Proof.
  destruct fast.
  - intros H. left. exact (interval_selection_fast names e H).
  - unfold selection. intros H. apply list_elem_of_filter in H.
    apply interval_catalog. exact (proj2 H).
Qed.

(** X14: whatever the flags, the arguments, the interface and the
    simulators do, every sleep of the command lasts zero, half a second or
    two seconds: no single wait is negative or longer than two seconds. *)
Theorem every_sleep_is_bounded (fast : bool) (ifaceName : string)
  (args : list string) (w : World) :
  Forall (fun d => (d = 0 \/ d = 500 * Millisecond \/ d = 2 * Second)
                   /\ 0 <= d <= 2 * Second)
         (sleeps (out (RunE fast ifaceName args (init w)))).
Proof.
  assert (Hb : forall d,
             d = 0 \/ d = 500 * Millisecond \/ d = 2 * Second ->
             (d = 0 \/ d = 500 * Millisecond \/ d = 2 * Second)
             /\ 0 <= d <= 2 * Second).
  { intros d H. split; [exact H|].
    destruct H as [->|[->| ->]]; vm_compute; split; discriminate. }
  destruct (check_args (simulatorNames (init w)) args) as [err|] eqn:Hchk.
  { rewrite (RunE_rejected _ _ _ _ _ Hchk). constructor. }
  destruct (ExternalIP ifaceName w) as [extIP|err] eqn:Hip.
  - destruct (RunE_runs fast ifaceName args w extIP Hchk Hip)
      as (h & _ & _ & Hout & _).
    rewrite Hout, !sleeps_app. cbn [sleeps app]. rewrite app_nil_r.
    eapply Forall_impl; [apply sleeps_run_entries|].
    intros d [->|(e & He & ->)]; apply Hb.
    + destruct fast; cbn [gap_of]; auto.
    + destruct (interval_selection fast (requested args) e He) as [->| ->];
        auto.
  - rewrite (RunE_no_address _ _ _ _ _ Hchk Hip). constructor.
Qed.

Lemma map_name_filter (names : list string) (l : list simulatorInfo) :
  map name (filter (fun e => StringsContains names (name e)) l)
    = filter (fun n => n ∈ names) (map name l).
Proof.
  induction l as [|e l IH]; [reflexivity|].
  cbn [map]. destruct (StringsContains names (name e)) eqn:Hin.
  - rewrite filter_cons_True by (rewrite Hin; exact I).
    rewrite filter_cons_True by (apply StringsContains_spec; exact Hin).
    cbn [map]. rewrite IH. reflexivity.
  - rewrite filter_cons_False by (rewrite Hin; exact id).
    rewrite filter_cons_False; [exact IH|].
    intros H. apply StringsContains_spec in H. rewrite H in Hin.
    discriminate Hin.
Qed.

Lemma map_name_selection (fast : bool) (names : list string) :
  map name (selection fast names)
    = filter (fun n => n ∈ names) (map name catalog).
Proof.
  unfold selection. destruct fast; [|apply map_name_filter].
  rewrite <- map_name_filter, map_map. reflexivity.
Qed.

(** X15: when the arguments are known and the interface has an address, the
    command asks for the targets of exactly the requested entries, each
    once, in the order of the catalog (c2-dns, dga, scan, tunnel), whatever
    the order and the repetitions of the arguments, in fast mode as in
    normal mode. *)
Theorem command_visits_requested_in_catalog_order (fast : bool)
  (ifaceName : string) (args : list string) (w : World) (extIP : IP) :
  (forall arg, arg ∈ args -> arg ∈ map name catalog) ->
  ExternalIP ifaceName w = inl extIP ->
  filter is_hosts (out (RunE fast ifaceName args (init w)))
    = map EHosts (filter (fun n => n ∈ requested args)
                         ["c2-dns"; "dga"; "scan"; "tunnel"]).
Proof.
  intros Hknown Hip.
  assert (Hchk : check_args (simulatorNames (init w)) args = None)
    by (apply check_args_None; exact Hknown).
  destruct (RunE_runs fast ifaceName args w extIP Hchk Hip)
    as (h & _ & _ & Hout & _).
  rewrite Hout, !filter_app, hosts_run_entries.
  change (filter is_hosts [EExternalIP ifaceName; EWelcome extIP; EHeader])
    with (@nil event).
  change (filter is_hosts [EGoodbay]) with (@nil event).
  rewrite app_nil_r. cbn [app].
  rewrite <- names_of_catalog, <- (map_name_selection fast), map_map.
  reflexivity.
Qed.

End Orchestrator.

(** ** The model at work: the stand-ins of [Demo] *)

Local Abbreviation demo_init :=
  (init Demo.World Demo.c2dns Demo.dga Demo.scan Demo.tunnel).
Local Abbreviation demo_catalog :=
  (catalog Demo.World Demo.c2dns Demo.dga Demo.scan Demo.tunnel).
Local Abbreviation demo_RunE :=
  (RunE Demo.World Demo.Sprintf Demo.RedString Demo.ExternalIP Demo.elapse).
Local Abbreviation demo_run_entry :=
  (run_entry Demo.World Demo.Sprintf Demo.RedString Demo.elapse).
Local Abbreviation demo_entry :=
  (fun i : nat => nth i demo_catalog (Demo.entry "none" Demo.scan)).
Local Abbreviation demo_select :=
  (fun ns : list string =>
     elems Demo.World
       (mem Demo.World (post Demo.World slice
          (selectSimulators Demo.World ns (demo_init 0%nat))))
       (val Demo.World slice
          (selectSimulators Demo.World ns (demo_init 0%nat)))).

Example SplitHostPort_port : SplitHostPort "example.com:53" = inl ("example.com", "53").
Proof. reflexivity. Qed.

Example SplitHostPort_bare : SplitHostPort "example.com" = inr missingPort.
Proof. reflexivity. Qed.

Example SplitHostPort_ipv6 : SplitHostPort "[::1]:80" = inl ("::1", "80").
Proof. reflexivity. Qed.

Example SplitHostPort_colons : SplitHostPort "::1" = inr tooManyColons.
Proof. reflexivity. Qed.

Example SplitHostPort_no_host : SplitHostPort ":80" = inl (EmptyString, "80").
Proof. reflexivity. Qed.

(** A whole run of the command on one name, in normal mode. *)
Example RunE_scan :
  out Demo.World _ (demo_RunE false "eth0" ["scan"] (demo_init 0%nat))
  = [EExternalIP "eth0"; EWelcome Demo.addr10; EHeader;
     EMsg "scan" "Starting";
     EMsg "scan" "Preparing random sample of RFC 1918 destinations";
     EMsg "scan" "Preparing random sample of common TCP destination ports";
     ESleep 2000000000; EHosts "scan";
     EMsg "scan" "Port scanning a";
     ESimulate "scan" Demo.addr10 "a:80"; ESleep 0;
     ESimulate "scan" Demo.addr10 "a:443"; ESleep 0;
     EMsg "scan" "Port scanning b";
     ESimulate "scan" Demo.addr10 "b:22"; ESleep 0;
     EMsg "scan" "Finished"; EGoodbay].
Proof. vm_compute. reflexivity. Qed.

(** The selector given no name at all selects nothing: a command without
    argument runs the whole catalog because [RunE] then keeps the four names
    that [simulatorNames] starts with. *)
Example selectSimulators_no_name : demo_select [] = [].
Proof. vm_compute. reflexivity. Qed.

Lemma selectSimulators_catalog_order_witness :
  (forall n : string,
      n ∈ ["tunnel"; "c2-dns"] <-> n ∈ ["c2-dns"; "tunnel"; "tunnel"])
  /\ demo_select ["c2-dns"; "tunnel"; "tunnel"] = demo_select ["tunnel"; "c2-dns"].
Proof.
  assert (H : forall n : string,
    n ∈ ["tunnel"; "c2-dns"] <-> n ∈ ["c2-dns"; "tunnel"; "tunnel"]).
  { intros n. rewrite !elem_of_cons. tauto. }
  split; [exact H|].
  destruct (selectSimulators_catalog_order Demo.World Demo.c2dns Demo.dga
              Demo.scan Demo.tunnel ["tunnel"; "c2-dns"] 0%nat)
    as (_ & _ & Hsame & _).
  exact (Hsame _ H).
Defined.

Lemma fatal_errors_run_nothing_witness :
  ("nope" ∈ ["scan"; "nope"] /\ ~ ("nope" ∈ map name demo_catalog))
  /\ (exists arg : string,
        arg ∈ ["scan"; "nope"] /\ ~ (arg ∈ map name demo_catalog)
        /\ demo_RunE true "eth0" ["scan"; "nope"] (demo_init 0%nat)
           = Res Demo.World _
               (Some (Demo.Sprintf "simulator %s not recognized" arg)) []
               (demo_init 0%nat))
  /\ Demo.ExternalIP "nosuch0" 0%nat = inr "no such network interface"
  /\ demo_RunE false "nosuch0" ["scan"] (demo_init 0%nat)
     = Res Demo.World _ (Some "no such network interface")
         [EExternalIP "nosuch0"]
         (State Demo.World (mem Demo.World (demo_init 0%nat)) ["scan"] 0%nat).
Proof.
  assert (Hnope : "nope" ∈ ["scan"; "nope"] /\ ~ ("nope" ∈ map name demo_catalog)).
  { split; [repeat constructor|]. cbn [map name demo_catalog].
    rewrite !elem_of_cons, elem_of_nil. intros [H|[H|[H|[H|H]]]];
      try discriminate H. exact H. }
  assert (Hscan : forall arg : string,
             arg ∈ ["scan"] -> arg ∈ map name demo_catalog).
  { intros arg H. apply list_elem_of_singleton in H. subst arg.
    repeat constructor. }
  split; [exact Hnope|]. split; [|split; [reflexivity|]].
  - apply (proj1 (fatal_errors_run_nothing Demo.World Demo.Sprintf
                    Demo.RedString Demo.ExternalIP Demo.elapse Demo.c2dns Demo.dga
                    Demo.scan Demo.tunnel true "eth0" ["scan"; "nope"] 0%nat)).
    exists "nope". exact Hnope.
  - apply (proj2 (fatal_errors_run_nothing Demo.World Demo.Sprintf
                    Demo.RedString Demo.ExternalIP Demo.elapse Demo.c2dns Demo.dga
                    Demo.scan Demo.tunnel false "nosuch0" ["scan"] 0%nat)
             "no such network interface" Hscan).
    reflexivity.
Defined.


(** Counterexample to C4 as written: the first target of an entry is not
    announced when its display hostname is empty. The target ":80" splits
    into the empty host and the port 80; the entry prints no progress line
    for it, and still calls [Simulate] on it. *)
Lemma first_target_not_announced :
  hostname_of ":80" = EmptyString
  /\ out Demo.World _
       (demo_run_entry Demo.addr10 0
          (Demo.entry "scan" (Demo.sim [":80"] None)) (demo_init 0%nat))
     = [EMsg "scan" "Starting"; EMsg "scan" "Preparing"; ESleep 0;
        EHosts "scan";
        ESimulate "scan" Demo.addr10 ":80"; ESleep 500000000;
        EMsg "scan" "Finished"].
Proof. split; vm_compute; reflexivity. Qed.


(** Counterexample to C8 as written: in a normal run of the one entry scan
    the only pause of two seconds comes after the two phase descriptions of
    the entry, not before them. *)
Lemma pause_not_before_phase_descriptions :
  occurs_before (ESleep (2 * Second))
    (EMsg "scan" "Preparing random sample of RFC 1918 destinations")
    (out Demo.World _ (demo_RunE false "eth0" ["scan"] (demo_init 0%nat)))
  = false
  /\ occurs_before
       (EMsg "scan" "Preparing random sample of common TCP destination ports")
       (ESleep (2 * Second))
       (out Demo.World _ (demo_RunE false "eth0" ["scan"] (demo_init 0%nat)))
     = true.
Proof. split; vm_compute; reflexivity. Qed.

Lemma normal_pause_follows_phase_descriptions_witness :
  (forall arg : string, arg ∈ ["scan"] -> arg ∈ map name demo_catalog)
  /\ Demo.ExternalIP "eth0" 0%nat = inl Demo.addr10
  /\ selection Demo.World Demo.c2dns Demo.dga Demo.scan Demo.tunnel false
       (requested ["scan"])
     = [] ++ demo_entry 2%nat :: []
  /\ exists t1 t2 : list event,
       out Demo.World _ (demo_RunE false "eth0" ["scan"] (demo_init 0%nat))
       = t1 ++ [EMsg "scan" "Starting"]
            ++ [EMsg "scan" "Preparing random sample of RFC 1918 destinations";
                EMsg "scan" "Preparing random sample of common TCP destination ports"]
            ++ [ESleep (2 * Second); EHosts "scan"] ++ t2.
Proof.
  assert (Hscan : forall arg : string,
             arg ∈ ["scan"] -> arg ∈ map name demo_catalog).
  { intros arg H. apply list_elem_of_singleton in H. subst arg.
    repeat constructor. }
  split; [exact Hscan|]. split; [reflexivity|]. split; [reflexivity|].
  exact (proj2 (normal_pause_follows_phase_descriptions Demo.World
                  Demo.Sprintf Demo.RedString Demo.ExternalIP Demo.elapse Demo.c2dns
                  Demo.dga Demo.scan Demo.tunnel "eth0" ["scan"] 0%nat
                  Demo.addr10 Hscan eq_refl)
           [] [] (demo_entry 2%nat) eq_refl).
Defined.

Lemma run_continues_past_failed_entry_witness :
  elems Demo.World (mem Demo.World (demo_init 0%nat)) allsimualtors
    = [demo_entry 0%nat]
      ++ demo_entry 1%nat
      :: [demo_entry 2%nat]
      ++ demo_entry 3%nat :: []
  /\ snd (hosts_of Demo.World
            (demo_entry 1%nat)
            (slept Demo.World Demo.elapse 0
               (post Demo.World _
                  (run_entries Demo.World Demo.Sprintf Demo.RedString
                     Demo.elapse Demo.addr10 0
                     [demo_entry 0%nat]
                     (demo_init 0%nat))))) <> None
  /\ filter is_simulate
       (out Demo.World _
          (run Demo.World Demo.Sprintf Demo.RedString Demo.elapse allsimualtors
             Demo.addr10 0 (demo_init 0%nat)))
     = [ESimulate "c2-dns" Demo.addr10 "evil.example:53";
        ESimulate "c2-dns" Demo.addr10 "bad.example";
        ESimulate "scan" Demo.addr10 "a:80";
        ESimulate "scan" Demo.addr10 "a:443";
        ESimulate "scan" Demo.addr10 "b:22";
        ESimulate "tunnel" Demo.addr10 "t1.example";
        ESimulate "tunnel" Demo.addr10 "t2.example"]
  /\ EMsg "tunnel" "Resolving t1.example"
       ∈ out Demo.World _
           (run Demo.World Demo.Sprintf Demo.RedString Demo.elapse allsimualtors
              Demo.addr10 0 (demo_init 0%nat)).
Proof.
  assert (Hel : elems Demo.World (mem Demo.World (demo_init 0%nat)) allsimualtors
    = [demo_entry 0%nat]
      ++ demo_entry 1%nat
      :: [demo_entry 2%nat]
      ++ demo_entry 3%nat :: [])
    by reflexivity.
  assert (Hfail : snd (hosts_of Demo.World
            (demo_entry 1%nat)
            (slept Demo.World Demo.elapse 0
               (post Demo.World _
                  (run_entries Demo.World Demo.Sprintf Demo.RedString
                     Demo.elapse Demo.addr10 0
                     [demo_entry 0%nat]
                     (demo_init 0%nat))))) <> None)
    by (vm_compute; discriminate).
  split; [exact Hel|]. split; [exact Hfail|]. split; [vm_compute; reflexivity|].
  destruct (run_continues_past_failed_entry Demo.World Demo.Sprintf
              Demo.RedString Demo.elapse allsimualtors Demo.addr10 0 (demo_init 0%nat)
              [demo_entry 0%nat]
              [demo_entry 2%nat] []
              (demo_entry 1%nat)
              (demo_entry 3%nat)
              Hel Hfail) as (_ & _ & _ & Hann).
  apply (Hann "t1.example" ["t2.example"]); [reflexivity|].
  vm_compute. discriminate.
Defined.

Lemma fast_mode_never_waits_witness :
  (forall arg : string, arg ∈ ["scan"] -> arg ∈ map name demo_catalog)
  /\ Demo.ExternalIP "eth0" 0%nat = inl Demo.addr10
  /\ Forall (fun e => interval e = 0)
       (map (set_interval Demo.World 0)
          (filter (fun e => name e ∈ requested ["scan"]) demo_catalog)).
Proof.
  assert (Hscan : forall arg : string,
             arg ∈ ["scan"] -> arg ∈ map name demo_catalog).
  { intros arg H. apply list_elem_of_singleton in H. subst arg.
    repeat constructor. }
  split; [exact Hscan|]. split; [reflexivity|].
  exact (proj1 (proj2 (fast_mode_never_waits Demo.World Demo.Sprintf
                         Demo.RedString Demo.ExternalIP Demo.elapse Demo.c2dns Demo.dga
                         Demo.scan Demo.tunnel "eth0" ["scan"] 0%nat)
                  Demo.addr10 Hscan eq_refl)).
Defined.

Lemma no_argument_selects_whole_catalog_witness :
  Demo.ExternalIP "eth0" 0%nat = inl Demo.addr10
  /\ exists st : state Demo.World,
       out Demo.World _ (demo_RunE false "eth0" [] (demo_init 0%nat))
         = [EExternalIP "eth0"; EWelcome Demo.addr10; EHeader]
           ++ out Demo.World _
                (run_entries Demo.World Demo.Sprintf Demo.RedString Demo.elapse
                   Demo.addr10 (2 * Second) demo_catalog st)
           ++ [EGoodbay].
Proof.
  split; [reflexivity|].
  exact (proj2 (proj2 (proj2
           (no_argument_selects_whole_catalog Demo.World Demo.Sprintf
              Demo.RedString Demo.ExternalIP Demo.elapse Demo.c2dns Demo.dga Demo.scan
              Demo.tunnel false "eth0" 0%nat)))
           Demo.addr10 eq_refl).
Defined.

(** ** The further properties at work *)

Lemma run_calls_hosts_once_per_entry_witness :
  elems Demo.World (mem Demo.World (demo_init 0%nat)) nil_slice = []
  /\ out Demo.World _
       (run Demo.World Demo.Sprintf Demo.RedString Demo.elapse nil_slice Demo.addr10 0
          (demo_init 0%nat))
     = [EWelcome Demo.addr10; EHeader; EGoodbay].
Proof.
  split; [reflexivity|].
  exact (proj2 (run_calls_hosts_once_per_entry Demo.World Demo.Sprintf
                  Demo.RedString Demo.elapse nil_slice Demo.addr10 0 (demo_init 0%nat))
           eq_refl).
Defined.

Lemma progress_lines_collapse_repeats_witness :
  Forall (fun x => hostname_of x = "a") ["a:80"; "a:443"; "a:8080"]
  /\ "a" <> EmptyString
  /\ filter is_msg
       (out Demo.World _
          (host_loop Demo.World Demo.Sprintf Demo.elapse (demo_entry 2%nat) Demo.addr10
             EmptyString ["a:80"; "a:443"; "a:8080"] (demo_init 0%nat)))
     = [EMsg "scan" "Port scanning a"].
Proof.
  assert (Hall : Forall (fun x => hostname_of x = "a")
                        ["a:80"; "a:443"; "a:8080"])
    by (repeat constructor).
  assert (Hne : "a" <> EmptyString) by discriminate.
  split; [exact Hall|]. split; [exact Hne|].
  exact (proj2 (proj2 (progress_lines_collapse_repeats Demo.World
                         Demo.Sprintf Demo.elapse (demo_entry 2%nat) Demo.addr10
                         EmptyString ["a:80"; "a:443"; "a:8080"]
                         (demo_init 0%nat)))
           "a" "a:80" ["a:443"; "a:8080"] eq_refl Hall Hne).
Defined.

Lemma command_fails_only_before_run_witness :
  (forall arg : string, arg ∈ ["scan"] -> arg ∈ map name demo_catalog)
  /\ Demo.ExternalIP "eth0" 0%nat = inl Demo.addr10
  /\ val Demo.World _ (demo_RunE false "eth0" ["scan"] (demo_init 0%nat))
     = None.
Proof.
  assert (Hscan : forall arg : string,
             arg ∈ ["scan"] -> arg ∈ map name demo_catalog).
  { intros arg H. apply list_elem_of_singleton in H. subst arg.
    repeat constructor. }
  split; [exact Hscan|]. split; [reflexivity|].
  apply (proj2 (command_fails_only_before_run Demo.World Demo.Sprintf
                  Demo.RedString Demo.ExternalIP Demo.elapse Demo.c2dns Demo.dga
                  Demo.scan Demo.tunnel false "eth0" ["scan"] 0%nat)).
  split; [exact Hscan|]. exists Demo.addr10. reflexivity.
Defined.

Lemma first_unknown_argument_is_reported_witness :
  (forall a : string,
      a ∈ ["scan"] -> a ∈ simulatorNames Demo.World (demo_init 0%nat))
  /\ ~ ("nope" ∈ simulatorNames Demo.World (demo_init 0%nat))
  /\ demo_RunE true "eth0" (["scan"] ++ "nope" :: ["also-unknown"])
       (demo_init 0%nat)
     = Res Demo.World _ (Some "simulator nope not recognized") []
         (demo_init 0%nat).
Proof.
  assert (Hscan : forall a : string,
             a ∈ ["scan"] -> a ∈ simulatorNames Demo.World (demo_init 0%nat)).
  { intros a H. apply list_elem_of_singleton in H. subst a.
    repeat constructor. }
  assert (Hnope : ~ ("nope" ∈ simulatorNames Demo.World (demo_init 0%nat))).
  { cbn [simulatorNames init]. rewrite !elem_of_cons, elem_of_nil.
    intros [H|[H|[H|[H|H]]]]; try discriminate H. exact H. }
  split; [exact Hscan|]. split; [exact Hnope|].
  exact (first_unknown_argument_is_reported Demo.World Demo.Sprintf
           Demo.RedString Demo.ExternalIP Demo.elapse true "eth0" ["scan"]
           ["also-unknown"] "nope" (demo_init 0%nat) Hscan Hnope).
Defined.

Lemma second_command_checked_against_first_witness :
  ["scan"] <> []
  /\ (forall a : string, a ∈ ["scan"] -> a ∈ map name demo_catalog)
  /\ ~ ("dga" ∈ ["scan"])
  /\ demo_RunE true "eth0" ([] ++ "dga" :: [])
       (post Demo.World _ (demo_RunE false "eth0" ["scan"] (demo_init 0%nat)))
     = Res Demo.World _ (Some "simulator dga not recognized") []
         (post Demo.World _ (demo_RunE false "eth0" ["scan"] (demo_init 0%nat))).
Proof.
  assert (Hne : ["scan"] <> @nil string) by discriminate.
  assert (Hscan : forall a : string,
             a ∈ ["scan"] -> a ∈ map name demo_catalog).
  { intros a H. apply list_elem_of_singleton in H. subst a.
    repeat constructor. }
  assert (Hnil : forall a : string, a ∈ @nil string -> a ∈ ["scan"]).
  { intros a H. apply elem_of_nil in H. destruct H. }
  assert (Hdga : ~ ("dga" ∈ ["scan"])).
  { intros H. apply list_elem_of_singleton in H. discriminate H. }
  split; [exact Hne|]. split; [exact Hscan|]. split; [exact Hdga|].
  exact (proj2 (second_command_checked_against_first Demo.World Demo.Sprintf
                  Demo.RedString Demo.ExternalIP Demo.elapse Demo.c2dns Demo.dga
                  Demo.scan Demo.tunnel false true "eth0" "eth0" ["scan"]
                  [] [] "dga" 0%nat Hne Hscan Hnil Hdga)).
Defined.

Lemma bracketed_host_displays_without_brackets_witness :
  has_byte "::1" "[" = false /\ has_byte "::1" "]" = false /\ plain "80"
  /\ hostname_of "[::1]:80" = "::1".
Proof.
  assert (Hp : plain "80") by (repeat split).
  split; [reflexivity|]. split; [reflexivity|]. split; [exact Hp|].
  exact (bracketed_host_displays_without_brackets "::1" "80"
           eq_refl eq_refl Hp).
Defined.

Lemma command_visits_requested_in_catalog_order_witness :
  (forall arg : string,
      arg ∈ ["tunnel"; "c2-dns"; "tunnel"] -> arg ∈ map name demo_catalog)
  /\ Demo.ExternalIP "eth0" 0%nat = inl Demo.addr10
  /\ filter is_hosts
       (out Demo.World _
          (demo_RunE true "eth0" ["tunnel"; "c2-dns"; "tunnel"]
             (demo_init 0%nat)))
     = [EHosts "c2-dns"; EHosts "tunnel"].
Proof.
  assert (Hknown : forall arg : string,
             arg ∈ ["tunnel"; "c2-dns"; "tunnel"] ->
             arg ∈ map name demo_catalog).
  { intros arg H. rewrite !elem_of_cons, elem_of_nil in H.
    destruct H as [->|[->|[->|H]]]; [| | |destruct H]; repeat constructor. }
  split; [exact Hknown|]. split; [reflexivity|].
  exact (command_visits_requested_in_catalog_order Demo.World Demo.Sprintf
           Demo.RedString Demo.ExternalIP Demo.elapse Demo.c2dns Demo.dga Demo.scan
           Demo.tunnel true "eth0" ["tunnel"; "c2-dns"; "tunnel"] 0%nat
           Demo.addr10 Hknown eq_refl).
Defined.

(** The stand-ins of [Demo] list their targets without looking at the
    world. *)
Lemma demo_sim_blind (hosts : list string) (err : option string) :
  blind Demo.World (fun _ _ : Demo.World => True) (Demo.sim hosts err).
Proof. intros w1 w2 _. repeat split. Qed.

Lemma fast_mode_changes_only_sleeps_witness :
  blind Demo.World (fun _ _ : Demo.World => True) Demo.c2dns
  /\ blind Demo.World (fun _ _ : Demo.World => True) Demo.dga
  /\ blind Demo.World (fun _ _ : Demo.World => True) Demo.scan
  /\ blind Demo.World (fun _ _ : Demo.World => True) Demo.tunnel
  /\ val Demo.World _ (demo_RunE true "eth0" ["scan"; "dga"] (demo_init 0%nat))
     = val Demo.World _ (demo_RunE false "eth0" ["scan"; "dga"] (demo_init 0%nat))
  /\ map erase_sleep
       (out Demo.World _ (demo_RunE true "eth0" ["scan"; "dga"] (demo_init 0%nat)))
     = map erase_sleep
         (out Demo.World _
            (demo_RunE false "eth0" ["scan"; "dga"] (demo_init 0%nat))).
Proof.
  pose proof (demo_sim_blind ["evil.example:53"; "bad.example"] None) as H1.
  pose proof (demo_sim_blind [] (Some "no seed")) as H2.
  pose proof (demo_sim_blind ["a:80"; "a:443"; "b:22"] None) as H3.
  pose proof (demo_sim_blind ["t1.example"; "t2.example"] None) as H4.
  split; [exact H1|]. split; [exact H2|]. split; [exact H3|].
  split; [exact H4|].
  destruct (fast_mode_changes_only_sleeps Demo.World Demo.Sprintf
              Demo.RedString Demo.ExternalIP Demo.elapse Demo.c2dns Demo.dga
              Demo.scan Demo.tunnel (fun _ _ : Demo.World => True)
              (fun _ _ _ _ _ => I) "eth0" ["scan"; "dga"] 0%nat
              I H1 H2 H3 H4) as (Hv & Ho & _).
  split; [exact Hv | exact Ho].
Defined.

(** The worlds that the fast and the normal command leave are not the same
    in general: with the stand-ins of [Demo], the sleeps that last are
    counted in the world. *)
Example fast_mode_leaves_another_world :
  world Demo.World
    (post Demo.World _ (demo_RunE true "eth0" ["scan"] (demo_init 0%nat)))
  = 4%nat
  /\ world Demo.World
       (post Demo.World _ (demo_RunE false "eth0" ["scan"] (demo_init 0%nat)))
     = 5%nat.
Proof. split; vm_compute; reflexivity. Qed.
